(** * swift-chat: the conversation synchronizer ([useChat])

    A shallow embedding of the [useChat] hook of [src/pages/Chat.tsx]
    (the bundle also carries the hook's earlier revision, which has the
    same realtime handler and a text-only [sendMessage]) together with
    the queries it sends to the backing store, and the properties of the
    message timeline that the specification states about them.

    Conventions of the embedding.
    - A JavaScript string is a [string]; each character stands for one
      code unit below 256.
    - [string | undefined] is [option string]; [undefined] and the empty
      string are both falsy.
    - An instant (the store's [created_at], the reading of [Date.now()])
      is an integer number of milliseconds.
    - React state and refs of the hook are the fields of [ChatState]; a
      state setter applies its updater to the current state and leaves
      an entry in the effect trace.
    - What the outside world answers at each [await] (the storage upload,
      the insert, the history query) is an argument of the operation. *)

From Stdlib Require Import ZArith Ascii.
From stdpp Require Import base option list gmap sets strings pretty sorting.

Local Open Scope Z_scope.
Local Open Scope string_scope.
Local Open Scope list_scope.

(** ** JavaScript strings *)

Module Js.

(** White space and line terminators that [String.prototype.trim]
    strips, among the code units below 256: TAB, LF, VT, FF, CR, SP and
    NBSP. *)
Definition is_whitespace (c : ascii) : bool :=
  match N_of_ascii c with
  | 9 | 10 | 11 | 12 | 13 | 32 | 160 => true
  | _ => false
  end%N.

Fixpoint trimStart (s : string) : string :=
  match s with
  | EmptyString => EmptyString
  | String c s' => if is_whitespace c then trimStart s' else s
  end.

Fixpoint trimEnd (s : string) : string :=
  match s with
  | EmptyString => EmptyString
  | String c s' =>
      match trimEnd s' with
      | EmptyString => if is_whitespace c then EmptyString else String c EmptyString
      | t => String c t
      end
  end.

(** [s.trim()] *)
Definition trim (s : string) : string := trimEnd (trimStart s).

(** Truthiness of a string: every string but the empty one. *)
Definition truthy (s : string) : bool :=
  match s with EmptyString => false | _ => true end.

(** [a || b] on strings. *)
Definition or (a b : string) : string := if truthy a then a else b.

(** [a || null] on a string. *)
Definition or_null (a : string) : option string :=
  if truthy a then Some a else None.

(** [s.startsWith(p)] *)
Definition startsWith (s p : string) : bool := String.prefix p s.

(** [s.includes('.')] *)
Fixpoint has_dot (s : string) : bool :=
  match s with
  | EmptyString => false
  | String c s' => Ascii.eqb c "." || has_dot s'
  end.

(** [s.split('.').pop()]: what follows the last dot, the whole string
    when it has none. *)
Fixpoint last_segment (s : string) : string :=
  match s with
  | EmptyString => EmptyString
  | String c s' =>
      if has_dot s' then last_segment s'
      else if Ascii.eqb c "." then s' else s
  end.

(** Every character of [s] is white space. *)
Fixpoint blank (s : string) : bool :=
  match s with
  | EmptyString => true
  | String c s' => is_whitespace c && blank s'
  end.

(** First and last character of a string. *)
Definition first_char (s : string) : option ascii :=
  match s with EmptyString => None | String c _ => Some c end.

Fixpoint last_char (s : string) : option ascii :=
  match s with
  | EmptyString => None
  | String c EmptyString => Some c
  | String _ s' => last_char s'
  end.

End Js.

(** ** Data model *)

(** [string | undefined] *)
Abbreviation Id := (option string).

(** [!x] for [x : string | undefined]. *)
Definition falsy (x : Id) : bool :=
  match x with
  | None => true
  | Some s => negb (Js.truthy s)
  end.

(** [s === x] for [s : string] and [x : string | undefined]. *)
Definition same_id (s : string) (x : Id) : bool :=
  match x with
  | None => false
  | Some t => String.eqb s t
  end.

Module Profile.
(** A row of the [profiles] table. *)
Record t := mk {
  id : string;
  user_id : string;
  username : string;
  online : bool;
  last_seen : option Z;
  created_at : Z;
}.
End Profile.

Module Message.
(** [MessageWithSender]: a row of the [messages] table, with the
    sender's profile when the history query joined it. *)
Record t := mk {
  id : string;
  sender_id : string;
  receiver_id : string;
  text : string;
  seen : bool;
  created_at : Z;
  file_url : option string;
  file_name : option string;
  file_type : option string;
  sender : option Profile.t;
}.

Definition with_seen (b : bool) (m : t) : t :=
  mk (id m) (sender_id m) (receiver_id m) (text m) b (created_at m)
     (file_url m) (file_name m) (file_type m) (sender m).

Definition with_sender (p : option Profile.t) (m : t) : t :=
  mk (id m) (sender_id m) (receiver_id m) (text m) (seen m) (created_at m)
     (file_url m) (file_name m) (file_type m) p.
End Message.

(** The browser's [File], as far as the hook reads it. *)
Record File := { file_name_of : string; file_type_of : string }.

(** What [uploadFile] returns on success. *)
Record FileData := { url : string; name : string; type : string }.

(** The object literal [newMessage] handed to the insert; the three file
    fields exist only when an upload succeeded. *)
Record NewMessage := {
  nm_sender_id : string;
  nm_receiver_id : string;
  nm_text : string;
  nm_file_url : option string;
  nm_file_name : option string;
  nm_file_type : option string;
}.

(** [string | SendMessageOptions] *)
Inductive SendArg :=
| ArgText (text : string)
| ArgOptions (text : option string) (file : option File).

(** One presence entry of the typing channel. *)
Record Presence := { profileId : string; isTyping : bool }.

(** [presenceState()]: an object from presence keys to arrays of
    entries, in the order [Object.values] walks it. *)
Abbreviation PresenceState := (list (string * list Presence)).

Record RealtimeChannel := { topic : string; presenceState : PresenceState }.

(** The identity of a function registered through [setOnNewMessage]. *)
Inductive Callback := Cb (n : nat).

(** State and refs of one [useChat] instance. *)
Record ChatState := {
  messages : list Message.t;
  loading : bool;
  typingUsers : gset string;
  uploading : bool;
  typingChannelRef : option RealtimeChannel;
  onNewMessageRef : option Callback;
}.

(** What the hook does to the world and to its own state, in order. *)
Inductive Effect :=
| SetMessages (next : list Message.t)
| SetLoading (b : bool)
| SetUploading (b : bool)
| SetTypingUsers (s : gset string)
| StorageUpload (bucket key : string) (f : File)
| SelectHistory (me peer : string)
| InsertMessage (row : NewMessage)
| UpdateSeen (from to : string)
| ConsoleError (what : string)
| InvokeCallback (cb : Callback) (m : Message.t).

(** How an [async] function settles for its caller. *)
Inductive Settled :=
| FulfilledUndefined
| Rejected (reason : string).

(** ** The monad of hook code: state and an effect trace *)

Definition Hook (A : Type) : Type := ChatState -> A * ChatState * list Effect.

Definition ret {A} (a : A) : Hook A := fun st => (a, st, []).

Definition bind {A B} (c : Hook A) (k : A -> Hook B) : Hook B :=
  fun st =>
    let '(a, st1, t1) := c st in
    let '(b, st2, t2) := k a st1 in
    (b, st2, t1 ++ t2).

Declare Scope hook_scope.
Delimit Scope hook_scope with hook.
Notation "x <- c ;; k" := (bind c (fun x => k))
  (at level 100, c at next level, right associativity) : hook_scope.
Notation "c ;; k" := (bind c (fun _ => k))
  (at level 100, right associativity) : hook_scope.
Local Open Scope hook_scope.

Definition emit (e : Effect) : Hook unit := fun st => (tt, st, [e]).

Definition result {A} (r : A * ChatState * list Effect) : A := r.1.1.
Definition final {A} (r : A * ChatState * list Effect) : ChatState := r.1.2.
Definition trace {A} (r : A * ChatState * list Effect) : list Effect := r.2.

(** The state with one field replaced. *)
Definition with_messages (l : list Message.t) (st : ChatState) : ChatState :=
  {| messages := l; loading := loading st; typingUsers := typingUsers st;
     uploading := uploading st; typingChannelRef := typingChannelRef st;
     onNewMessageRef := onNewMessageRef st |}.

Definition with_loading (b : bool) (st : ChatState) : ChatState :=
  {| messages := messages st; loading := b; typingUsers := typingUsers st;
     uploading := uploading st; typingChannelRef := typingChannelRef st;
     onNewMessageRef := onNewMessageRef st |}.

Definition with_uploading (b : bool) (st : ChatState) : ChatState :=
  {| messages := messages st; loading := loading st; typingUsers := typingUsers st;
     uploading := b; typingChannelRef := typingChannelRef st;
     onNewMessageRef := onNewMessageRef st |}.

Definition with_typingUsers (s : gset string) (st : ChatState) : ChatState :=
  {| messages := messages st; loading := loading st; typingUsers := s;
     uploading := uploading st; typingChannelRef := typingChannelRef st;
     onNewMessageRef := onNewMessageRef st |}.

Definition with_onNewMessage (c : option Callback) (st : ChatState) : ChatState :=
  {| messages := messages st; loading := loading st; typingUsers := typingUsers st;
     uploading := uploading st; typingChannelRef := typingChannelRef st;
     onNewMessageRef := c |}.

(** [setMessages(updater)] *)
Definition setMessages (f : list Message.t -> list Message.t) : Hook unit :=
  fun st =>
    let next := f (messages st) in
    (tt, with_messages next st, [SetMessages next]).

Definition setLoading (b : bool) : Hook unit :=
  fun st => (tt, with_loading b st, [SetLoading b]).

Definition setUploading (b : bool) : Hook unit :=
  fun st => (tt, with_uploading b st, [SetUploading b]).

Definition setTypingUsers (s : gset string) : Hook unit :=
  fun st => (tt, with_typingUsers s st, [SetTypingUsers s]).

(** [setOnNewMessage]: an assignment to the ref. *)
Definition setOnNewMessage (callback : Callback) : Hook unit :=
  fun st => (tt, with_onNewMessage (Some callback) st, []).

Definition get : Hook ChatState := fun st => (st, st, []).

(** The string behind an identifier that passed the truthiness guard. *)
Definition str (x : Id) : string := default "" x.

(** ** The answers of the outside world *)

(** Everything one [sendMessage] call reads from outside: the clock at
    its three readings, the storage service and the insert. *)
Record SendWorld := {
  upload_now : Z;
  upload_error : bool;
  publicUrl : string -> string;
  id_now : Z;
  created_now : Z;
  insert_error : bool;
}.

(** The [{ data, error }] pair a store query resolves to. *)
Record Response := {
  data : option (list Message.t);
  error : option string;
}.

(** ** Operations of the hook *)

(** [loadMessages] *)
Definition loadMessages (resp : Response) (currentProfileId selectedUserId : Id)
  : Hook unit :=
  if falsy currentProfileId || falsy selectedUserId then ret tt
  else
    setLoading true ;;
    emit (SelectHistory (str currentProfileId) (str selectedUserId)) ;;
    match error resp, data resp with
    | None, Some rows => setMessages (fun _ => rows)
    | _, _ => ret tt
    end ;;
    setLoading false.

(** The storage key [uploadFile] derives: owner, clock reading and the
    extension of the original name. *)
Definition fileName_of (w : SendWorld) (currentProfileId : Id) (file : File) : string :=
  let fileExt := Js.last_segment (file_name_of file) in
  str currentProfileId +:+ "/" +:+ pretty (upload_now w) +:+ "." +:+ fileExt.

(** [uploadFile] *)
Definition uploadFile (w : SendWorld) (currentProfileId : Id) (file : File)
  : Hook (option FileData) :=
  if falsy currentProfileId then ret None
  else
    let fileName := fileName_of w currentProfileId file in
    emit (StorageUpload "chat-attachments" fileName file) ;;
    if upload_error w then
      emit (ConsoleError "Error uploading file:") ;;
      ret None
    else
      ret (Some {| url := publicUrl w fileName;
                   name := file_name_of file;
                   type := file_type_of file |}).

(** The locally minted identifier of a pending message. *)
Definition temp_id (w : SendWorld) : string := "temp-" +:+ pretty (id_now w).

(** The predicate of the rollback filter: [m.id !== i]. *)
Definition other_than (i : string) (m : Message.t) : bool :=
  negb (String.eqb (Message.id m) i).

(** The two halves of the argument of [sendMessage]. *)
Definition arg_text (a : SendArg) : string :=
  match a with
  | ArgText t => t
  | ArgOptions t _ => Js.or (default "" t) ""
  end.

Definition arg_file (a : SendArg) : option File :=
  match a with
  | ArgText _ => None
  | ArgOptions _ f => f
  end.

(** The [newMessage] literal and its three conditional assignments. *)
Definition newMessage_of (currentProfileId selectedUserId : Id) (text : string)
    (fileData : option FileData) : NewMessage :=
  {| nm_sender_id := str currentProfileId;
     nm_receiver_id := str selectedUserId;
     nm_text := Js.or (Js.trim text) (match fileData with Some _ => "" | None => "" end);
     nm_file_url := url <$> fileData;
     nm_file_name := name <$> fileData;
     nm_file_type := type <$> fileData |}.

(** The [optimisticMessage] literal. *)
Definition optimisticMessage_of (w : SendWorld) (currentProfileId selectedUserId : Id)
    (newMessage : NewMessage) (fileData : option FileData) : Message.t :=
  {| Message.id := temp_id w;
     Message.sender_id := str currentProfileId;
     Message.receiver_id := str selectedUserId;
     Message.text := nm_text newMessage;
     Message.seen := false;
     Message.created_at := created_now w;
     Message.file_url := fileData ≫= (fun d => Js.or_null (url d));
     Message.file_name := fileData ≫= (fun d => Js.or_null (name d));
     Message.file_type := fileData ≫= (fun d => Js.or_null (type d));
     Message.sender := None |}.

(** [sendMessage] *)
Definition sendMessage (w : SendWorld) (currentProfileId selectedUserId : Id)
    (textOrOptions : SendArg) : Hook Settled :=
  if falsy currentProfileId || falsy selectedUserId then ret FulfilledUndefined
  else
    let text := arg_text textOrOptions in
    let file := arg_file textOrOptions in
    if negb (Js.truthy (Js.trim text)) && negb (bool_decide (is_Some file))
    then ret FulfilledUndefined
    else
      setUploading (bool_decide (is_Some file)) ;;
      fileData <- match file with
                  | Some f => uploadFile w currentProfileId f
                  | None => ret None
                  end ;;
      if bool_decide (is_Some file) && negb (bool_decide (is_Some fileData))
         && negb (Js.truthy (Js.trim text))
      then
        setUploading false ;;
        ret FulfilledUndefined
      else
        let newMessage := newMessage_of currentProfileId selectedUserId text fileData in
        let optimisticMessage :=
          optimisticMessage_of w currentProfileId selectedUserId newMessage fileData in
        setMessages (fun prev => prev ++ [optimisticMessage]) ;;
        setUploading false ;;
        emit (InsertMessage newMessage) ;;
        (if insert_error w then
           setMessages (List.filter (other_than (Message.id optimisticMessage))) ;;
           emit (ConsoleError "Error sending message:")
         else ret tt) ;;
        ret FulfilledUndefined.

(** [markAsSeen]: one conditional bulk update, not awaited by anyone. *)
Definition markAsSeen (currentProfileId selectedUserId : Id) : Hook unit :=
  if falsy currentProfileId || falsy selectedUserId then ret tt
  else emit (UpdateSeen (str selectedUserId) (str currentProfileId)).

(** The test "it's for this conversation" of the realtime handler. *)
Definition in_conversation (currentProfileId selectedUserId : Id) (newMsg : Message.t)
  : bool :=
  (same_id (Message.sender_id newMsg) currentProfileId
   && same_id (Message.receiver_id newMsg) selectedUserId)
  || (same_id (Message.sender_id newMsg) selectedUserId
      && same_id (Message.receiver_id newMsg) currentProfileId).

(** A locally minted identifier. *)
Definition is_temp (m : Message.t) : bool := Js.startsWith (Message.id m) "temp-".

(** The updater the realtime handler passes to [setMessages]. *)
Definition reconcile (newMsg : Message.t) (prev : list Message.t) : list Message.t :=
  if existsb (fun m => String.eqb (Message.id m) (Message.id newMsg)) prev then prev
  else
    let filtered := List.filter (fun m => negb (is_temp m)) prev in
    filtered ++ [newMsg].

(** The handler of [INSERT] events on the [messages] table. *)
Definition onInsert (currentProfileId selectedUserId : Id) (newMsg : Message.t)
  : Hook unit :=
  if in_conversation currentProfileId selectedUserId newMsg then
    setMessages (reconcile newMsg) ;;
    (if same_id (Message.receiver_id newMsg) currentProfileId
     then markAsSeen currentProfileId selectedUserId
     else ret tt) ;;
    st <- get ;;
    match onNewMessageRef st with
    | Some callback =>
        if negb (same_id (Message.sender_id newMsg) currentProfileId)
        then emit (InvokeCallback callback newMsg)
        else ret tt
    | None => ret tt
    end
  else ret tt.

(** The test of the inner loop: [p.isTyping && p.profileId !== currentProfileId]. *)
Definition announces (currentProfileId : Id) (p : Presence) : bool :=
  isTyping p && negb (same_id (profileId p) currentProfileId).

(** The set built by the two nested [forEach] loops of the presence
    handler. *)
Definition collect_typing (currentProfileId : Id) (state : PresenceState)
  : gset string :=
  foldl
    (fun typing entry =>
       foldl
         (fun typing p =>
            if announces currentProfileId p
            then typing ∪ {[ profileId p ]}
            else typing)
         typing entry.2)
    ∅ state.

(** [typingChannelRef.current?.presenceState() || {}] *)
Definition latest_snapshot (st : ChatState) : PresenceState :=
  match typingChannelRef st with
  | Some channel => presenceState channel
  | None => []
  end.

(** The handler of presence [sync] events on the typing channel. *)
Definition onPresenceSync (currentProfileId : Id) : Hook unit :=
  st <- get ;;
  let state := latest_snapshot st in
  setTypingUsers (collect_typing currentProfileId state).

(** The hook's earlier revision: messages carry text only and no
    callback is registered. Its [loadMessages], [markAsSeen] and presence
    handler are the ones above. *)
Module Earlier.

Definition sendMessage (w : SendWorld) (currentProfileId selectedUserId : Id)
    (text : string) : Hook Settled :=
  if falsy currentProfileId || falsy selectedUserId || negb (Js.truthy (Js.trim text))
  then ret FulfilledUndefined
  else
    let newMessage :=
      {| nm_sender_id := str currentProfileId;
         nm_receiver_id := str selectedUserId;
         nm_text := Js.trim text;
         nm_file_url := None; nm_file_name := None; nm_file_type := None |} in
    let optimisticMessage :=
      {| Message.id := temp_id w;
         Message.sender_id := nm_sender_id newMessage;
         Message.receiver_id := nm_receiver_id newMessage;
         Message.text := nm_text newMessage;
         Message.seen := false;
         Message.created_at := created_now w;
         Message.file_url := None; Message.file_name := None;
         Message.file_type := None; Message.sender := None |} in
    setMessages (fun prev => prev ++ [optimisticMessage]) ;;
    emit (InsertMessage newMessage) ;;
    (if insert_error w then
       setMessages (List.filter (other_than (Message.id optimisticMessage))) ;;
       emit (ConsoleError "Error sending message:")
     else ret tt) ;;
    ret FulfilledUndefined.

Definition onInsert (currentProfileId selectedUserId : Id) (newMsg : Message.t)
  : Hook unit :=
  if in_conversation currentProfileId selectedUserId newMsg then
    setMessages (reconcile newMsg) ;;
    (if same_id (Message.receiver_id newMsg) currentProfileId
     then markAsSeen currentProfileId selectedUserId
     else ret tt)
  else ret tt.

End Earlier.

(** ** The backing store, as far as the hook's queries read and write it *)

Module Store.

Record t := {
  messages_tbl : list Message.t;
  profiles_tbl : list Profile.t;
}.

(** The [or(and(...),and(...))] filter of the history query. *)
Definition between (me peer : string) (m : Message.t) : bool :=
  (String.eqb (Message.sender_id m) me && String.eqb (Message.receiver_id m) peer)
  || (String.eqb (Message.sender_id m) peer && String.eqb (Message.receiver_id m) me).

(** The embedded resource [sender:profiles!messages_sender_id_fkey(...)]. *)
Definition join_sender (db : t) (m : Message.t) : Message.t :=
  Message.with_sender
    (List.find (fun p => String.eqb (Profile.id p) (Message.sender_id m)) (profiles_tbl db))
    m.

(** [order('created_at', { ascending: true })] *)
Definition created_le (a b : Message.t) : Prop :=
  Message.created_at a <= Message.created_at b.

#[global] Instance created_le_dec a b : Decision (created_le a b).
Proof. unfold created_le. apply _. Defined.

(** The history query of [loadMessages]. *)
Definition select_history (db : t) (me peer : string) : list Message.t :=
  merge_sort created_le
    (List.map (join_sender db) (List.filter (between me peer) (messages_tbl db))).

(** The query after transport: it fails as a whole or carries the rows. *)
Definition respond (failed : option string) (db : t) (me peer : string) : Response :=
  match failed with
  | Some e => {| data := None; error := Some e |}
  | None => {| data := Some (select_history db me peer); error := None |}
  end.

(** The row filter of the bulk update of [markAsSeen]:
    [eq sender_id], [eq receiver_id], [eq seen false]. *)
Definition unseen_from (from to : string) (m : Message.t) : bool :=
  String.eqb (Message.sender_id m) from
  && String.eqb (Message.receiver_id m) to
  && Bool.eqb (Message.seen m) false.

(** [update({ seen: true })] on the rows the filter selects. *)
Definition update_seen (from to : string) (rows : list Message.t) : list Message.t :=
  List.map (fun m => if unseen_from from to m then Message.with_seen true m else m) rows.

End Store.

(** ** The operations of the synchronizer, as one step function *)

Inductive Op :=
| Send (w : SendWorld) (arg : SendArg)
| Inserted (newMsg : Message.t)
| MarkSeen.

Definition perform (currentProfileId selectedUserId : Id) (op : Op) : Hook unit :=
  match op with
  | Send w arg => _ <- sendMessage w currentProfileId selectedUserId arg ;; ret tt
  | Inserted newMsg => onInsert currentProfileId selectedUserId newMsg
  | MarkSeen => markAsSeen currentProfileId selectedUserId
  end.

(** ** Vocabulary of the statements *)

(** A message with identifier [i] occurs in the timeline. *)
Definition present (i : string) (l : list Message.t) : Prop :=
  exists m, m ∈ l /\ Message.id m = i.

(** The message the timeline shows under identifier [i]: the first one
    that carries it. *)
Definition lookup_id (i : string) (l : list Message.t) : option Message.t :=
  List.find (fun m => String.eqb (Message.id m) i) l.

(** The event belongs to the active pair, in one direction or the other. *)
Definition matches_pair (cur sel : Id) (m : Message.t) : Prop :=
  (Some (Message.sender_id m) = cur /\ Some (Message.receiver_id m) = sel)
  \/ (Some (Message.sender_id m) = sel /\ Some (Message.receiver_id m) = cur).

(** The callback invocations of a trace, in order. *)
Definition invoked (e : Effect) : option (Callback * Message.t) :=
  match e with
  | InvokeCallback cb m => Some (cb, m)
  | _ => None
  end.

(** The entry an operation adds to the timeline. *)
Definition added_by (op : Op) (st : ChatState) (m : Message.t) : Prop :=
  match op with
  | Send w _ => Message.id m = temp_id w /\ Message.seen m = false
  | Inserted newMsg => m = newMsg /\ ~ present (Message.id newMsg) (messages st)
  | MarkSeen => False
  end.

(** No white space at either end. *)
Definition unpadded (s : string) : Prop :=
  (forall c, Js.first_char s = Some c -> Js.is_whitespace c = false)
  /\ (forall c, Js.last_char s = Some c -> Js.is_whitespace c = false).

(** [t] is [s] without the white space at its two ends. *)
Definition stripped (s t : string) : Prop :=
  unpadded t
  /\ exists l r, Js.blank l = true /\ Js.blank r = true /\ s = l +:+ t +:+ r.

(** The pending message and the row of the durable write agree on the
    trimmed text and on the active pair. *)
Definition same_envelope (cur sel : Id) (input : string)
    (pending : Message.t) (row : NewMessage) : Prop :=
  Message.text pending = Js.trim input
  /\ nm_text row = Js.trim input
  /\ Some (Message.sender_id pending) = cur
  /\ Some (nm_sender_id row) = cur
  /\ Some (Message.receiver_id pending) = sel
  /\ Some (nm_receiver_id row) = sel.

(** Neither the row nor the pending message carries an attachment. *)
Definition text_only (row : NewMessage) (pending : Message.t) : Prop :=
  nm_file_url row = None /\ nm_file_name row = None /\ nm_file_type row = None
  /\ Message.file_url pending = None /\ Message.file_name pending = None
  /\ Message.file_type pending = None.

(** The reading "at most one pending placeholder is removed, and the
    authoritative message is appended at the end" of the reconciliation
    rule: the timeline splits into at most one removed placeholder and
    the entries that stay. *)
Definition removes_at_most_one (cur sel : Id) (newMsg : Message.t) (st : ChatState)
  : Prop :=
  exists removed kept,
    (length removed <= 1)%nat
    /\ Forall (fun m => is_temp m = true) removed
    /\ messages st ≡ₚ removed ++ kept
    /\ messages (final (onInsert cur sel newMsg st)) = kept ++ [newMsg].

(** ** A sample conversation: A is the local user, B the peer *)

Module Sample.

Definition A : Id := Some "A".
Definition B : Id := Some "B".

Definition idle : ChatState :=
  {| messages := []; loading := false; typingUsers := ∅; uploading := false;
     typingChannelRef := None; onNewMessageRef := None |}.

Definition msg (i from to body : string) (at_ : Z) : Message.t :=
  {| Message.id := i; Message.sender_id := from; Message.receiver_id := to;
     Message.text := body; Message.seen := false; Message.created_at := at_;
     Message.file_url := None; Message.file_name := None;
     Message.file_type := None; Message.sender := None |}.

(** Two sends of A still waiting for their echoes. *)
Definition two_pending : ChatState :=
  with_messages [msg "temp-1" "A" "B" "one" 1; msg "temp-2" "A" "B" "two" 2] idle.

(** The echo of the first of them. *)
Definition echo_one : Message.t := msg "srv-1" "A" "B" "one" 3.

(** A message of the peer, and a listener for it. *)
Definition from_peer : Message.t := msg "srv-9" "B" "A" "hello" 9.
Definition listening : ChatState := with_onNewMessage (Some (Cb 0)) idle.

(** A world in which both the upload and the insert fail, and the same
    world with both succeeding. *)
Definition offline : SendWorld :=
  {| upload_now := 7; upload_error := true;
     publicUrl := fun key => "https://cdn.example/" +:+ key;
     id_now := 5; created_now := 6; insert_error := true |}.

Definition online : SendWorld :=
  {| upload_now := 7; upload_error := false;
     publicUrl := fun key => "https://cdn.example/" +:+ key;
     id_now := 5; created_now := 6; insert_error := false |}.


Definition photo : File := {| file_name_of := "cat.final.png"; file_type_of := "image/png" |}.

(** The typing channel reports A typing and B not typing. *)
Definition viewed_by_B : ChatState :=
  {| messages := []; loading := false; typingUsers := ∅; uploading := false;
     typingChannelRef :=
       Some {| topic := "typing:A:B";
               presenceState :=
                 [("A", [{| profileId := "A"; isTyping := true |}]);
                  ("B", [{| profileId := "B"; isTyping := false |}])] |};
     onNewMessageRef := None |}.

(** A store with three messages between A and B, out of order, and one
    of another conversation. *)
Definition db : Store.t :=
  {| Store.messages_tbl :=
       [msg "srv-3" "B" "A" "three" 30; msg "srv-1" "A" "B" "one" 10;
        msg "srv-x" "C" "A" "other" 15; msg "srv-2" "B" "A" "two" 20];
     Store.profiles_tbl := [] |}.

(** A message of the peer that A has seen, alone in the timeline. *)
Definition read_msg : Message.t := Message.with_seen true (msg "srv-7" "B" "A" "read" 7).
Definition has_read : ChatState := with_messages [read_msg] idle.

(** The row a send of "hi" hands to the store. *)
Definition hi_row : NewMessage :=
  {| nm_sender_id := "A"; nm_receiver_id := "B"; nm_text := "hi";
     nm_file_url := None; nm_file_name := None; nm_file_type := None |}.

End Sample.

(** ** Runs of sends and of inbound events *)

(** The realtime handler applied to a run of events, oldest first. *)
Definition deliver_all (cur sel : Id) (events : list Message.t) (st : ChatState)
  : ChatState :=
  foldl (fun st newMsg => final (onInsert cur sel newMsg st)) st events.

(** The identifiers of a timeline, in order. *)
Definition ids_of (l : list Message.t) : list string := List.map Message.id l.

(** The send goes on to the durable write: it has text, or a file whose
    upload succeeds. *)
Definition proceeds (w : SendWorld) (arg : SendArg) : bool :=
  Js.truthy (Js.trim (arg_text arg))
  || (bool_decide (is_Some (arg_file arg)) && negb (upload_error w)).

(** A run of sends, each with the answers of its own world. *)
Definition send_all (cur sel : Id) (sends : list (SendWorld * SendArg)) (st : ChatState)
  : ChatState :=
  foldl (fun st s => final (sendMessage s.1 cur sel s.2 st)) st sends.

(** What a placeholder shows of the send that made it. *)
Definition placeholder_of (s : SendWorld * SendArg) (p : Message.t) : Prop :=
  Message.id p = temp_id s.1
  /\ is_temp p = true
  /\ Message.seen p = false
  /\ Message.text p = Js.trim (arg_text s.2)
  /\ Message.created_at p = created_now s.1.

(** ** Channel names and the typing announcement *)

(** [s.includes(c)] for a one-character [c]. *)
Fixpoint contains (c : ascii) (s : string) : bool :=
  match s with
  | EmptyString => false
  | String d s' => Ascii.eqb d c || contains c s'
  end.

(** [[a, b].sort()]: the default order of strings, by code units. *)
Definition sort_pair (a b : string) : list string :=
  if String.ltb b a then [b; a] else [a; b].

(** [xs.join(sep)] *)
Fixpoint join_with (sep : string) (xs : list string) : string :=
  match xs with
  | [] => ""
  | [x] => x
  | x :: rest => x +:+ sep +:+ join_with sep rest
  end.

(** The name of the presence channel the hook joins for a pair. *)
Definition typing_topic (currentProfileId selectedUserId : Id) : string :=
  "typing:" +:+ join_with ":" (sort_pair (str currentProfileId) (str selectedUserId)).

(** [sendTypingIndicator]: the payload handed to [track], if any. *)
Definition sendTypingIndicator (currentProfileId : Id) (isTyping : bool) (st : ChatState)
  : option Presence :=
  if falsy currentProfileId || negb (bool_decide (is_Some (typingChannelRef st)))
  then None
  else Some {| profileId := str currentProfileId; isTyping := isTyping |}.

(** ** The directory of peers ([useUsers]) *)

Module Users.

Record State := {
  users : list Profile.t;
  loading : bool;
}.

(** The [{ data, error }] pair of a query. *)
Record Rows (A : Type) := {
  data : option (list A);
  error : option string;
}.
Arguments data {A} _.
Arguments error {A} _.

Inductive Effect :=
| SetUsers (next : list Profile.t)
| SetLoading (b : bool)
| SearchProfiles (pattern not_user : string) (limit : nat)
| SelectReceivers (sender : string)
| SelectSenders (receiver : string)
| SelectProfilesIn (ids : list string).

(** A state together with what has been done so far. *)
Definition Run : Type := State * list Effect.

Definition setUsers (f : list Profile.t -> list Profile.t) (r : Run) : Run :=
  let next := f (users r.1) in
  ({| users := next; loading := loading r.1 |}, r.2 ++ [SetUsers next]).

Definition setLoading (b : bool) (r : Run) : Run :=
  ({| users := users r.1; loading := b |}, r.2 ++ [SetLoading b]).

Definition request (e : Effect) (r : Run) : Run := (r.1, r.2 ++ [e]).

(** [searchUsers] *)
Definition searchUsers (resp : Rows Profile.t) (currentUserId : Id) (query : string)
    (st : State) : Run :=
  if negb (Js.truthy (Js.trim query)) || falsy currentUserId then (st, [])
  else
    let r := setLoading true (st, []) in
    let r := request (SearchProfiles ("%" +:+ query +:+ "%") (str currentUserId) 10) r in
    let r := match error resp, data resp with
             | None, Some rows => setUsers (fun _ => rows) r
             | _, _ => r
             end in
    setLoading false r.

(** [userIds.add(x)] on a set kept in insertion order. *)
Definition set_add (x : string) (s : list string) : list string :=
  if bool_decide (x ∈ s) then s else s ++ [x].

(** [rows?.forEach(m => userIds.add(m))] *)
Definition add_all (rows : option (list string)) (s : list string) : list string :=
  foldl (fun s x => set_add x s) s (default [] rows).

(** [getRecentConversations]; [sentMessages] are the receiver ids of the
    first query, [receivedMessages] the sender ids of the second. *)
Definition getRecentConversations (sentMessages receivedMessages : option (list string))
    (resp : Rows Profile.t) (profileId : string) (st : State) : Run :=
  if negb (Js.truthy profileId) then (st, [])
  else
    let r := setLoading true (st, []) in
    let r := request (SelectReceivers profileId) r in
    let r := request (SelectSenders profileId) r in
    let userIds := add_all receivedMessages (add_all sentMessages []) in
    if (length userIds =? 0)%nat then
      setLoading false (setUsers (fun _ => []) r)
    else
      let r := request (SelectProfilesIn userIds) r in
      let r := match error resp, data resp with
               | None, Some profiles => setUsers (fun _ => profiles) r
               | _, _ => r
               end in
      setLoading false r.

(** The updater of the profile [UPDATE] handler. *)
Definition patch (updated : Profile.t) (prev : list Profile.t) : list Profile.t :=
  List.map (fun u => if String.eqb (Profile.id u) (Profile.id updated) then updated else u)
           prev.

(** The handler of [UPDATE] events on the [profiles] table. *)
Definition onProfileUpdate (updated : Profile.t) (st : State) : Run :=
  setUsers (patch updated) (st, []).

(** The three queries of [getRecentConversations], answered by the store. *)
Definition receivers_of (db : Store.t) (sender : string) : list string :=
  List.map Message.receiver_id
    (List.filter (fun m => String.eqb (Message.sender_id m) sender) (Store.messages_tbl db)).

Definition senders_to (db : Store.t) (receiver : string) : list string :=
  List.map Message.sender_id
    (List.filter (fun m => String.eqb (Message.receiver_id m) receiver)
                 (Store.messages_tbl db)).

Definition profiles_in (db : Store.t) (ids : list string) : list Profile.t :=
  List.filter (fun p => existsb (String.eqb (Profile.id p)) ids) (Store.profiles_tbl db).

End Users.

(** The lookup [users.find(u => u.id === i)]. *)
Definition find_profile (i : string) (l : list Profile.t) : option Profile.t :=
  List.find (fun u => String.eqb (Profile.id u) i) l.

(** The peers of [profileId]: whoever received from it or sent to it. *)
Definition talked_with (db : Store.t) (profileId peer : string) : Prop :=
  exists m, m ∈ Store.messages_tbl db
            /\ ((Message.sender_id m = profileId /\ Message.receiver_id m = peer)
                \/ (Message.receiver_id m = profileId /\ Message.sender_id m = peer)).

(** ** The page ([Chat]) and the search box *)

Module ChatPage.

(** Which directory request [handleSearch] makes. *)
Inductive SearchCall :=
| SearchUsers (query : string)
| RecentConversations (profileId : string)
| NoCall.

(** [handleSearch] *)
Definition handleSearch (profile : option Profile.t) (query : string) : SearchCall :=
  if Js.truthy (Js.trim query) then SearchUsers query
  else
    match profile with
    | Some p => if Js.truthy (Profile.id p) then RecentConversations (Profile.id p)
                else NoCall
    | None => NoCall
    end.

(** The effect that keeps [selectedUser] in step with the directory. *)
Definition selectedUser_effect (users : list Profile.t) (selectedUserId : Id)
    (selectedUser : option Profile.t) : option Profile.t :=
  if falsy selectedUserId then selectedUser
  else find_profile (str selectedUserId) users.

End ChatPage.

Module Sidebar.

(** What the debounce timer of the search box does when it fires: the
    new [isSearching] flag and the query handed to [onSearch], if any. *)
Definition debounced (searchQuery : string) : bool * option string :=
  if Js.truthy (Js.trim searchQuery) then (true, Some searchQuery)
  else (false, None).

End Sidebar.

Module SearchBox.

(** The chain from the debounce timer of the search box through
    [handleSearch] to the directory. *)
Definition on_timer (resp : Users.Rows Profile.t)
    (sent received : option (list string)) (currentUserId : Id)
    (profile : option Profile.t) (searchQuery : string) (st : Users.State)
  : Users.Run :=
  match (Sidebar.debounced searchQuery).2 with
  | None => (st, [])
  | Some query =>
      match ChatPage.handleSearch profile query with
      | ChatPage.SearchUsers q => Users.searchUsers resp currentUserId q st
      | ChatPage.RecentConversations pid =>
          Users.getRecentConversations sent received resp pid st
      | ChatPage.NoCall => (st, [])
      end
  end.

End SearchBox.

(** ** Notifications ([useNotifications] and the callback of the page) *)

Module Notifications.







End Notifications.

Module ChatCallback.




End ChatCallback.

(** ** The message pane ([ChatWindow]) *)

Module Window.

(** What a pending timeout will do when it fires. *)
Inductive Task :=
| TypingOff      (* [() => onTyping(false)], after 2000 ms *)
| FocusInput.    (* [() => inputRef.current?.focus()], after 100 ms *)

(** The browser's table of pending timeouts and the next handle it will
    hand out; handles are positive. *)
Record Browser := {
  armed : list (nat * Task);
  next_handle : nat;
}.

(** State and refs of the component that the handlers touch. *)
Record State := {
  newMessage : string;
  selectedFile : option File;
  previewUrl : option string;
  typingTimeoutRef : option nat;
}.

(** The calls the component makes on its props and on the browser. *)
Inductive Call :=
| OnSendMessage (arg : SendArg)
| OnTyping (isTyping : bool)
| RevokeObjectURL (u : string).

(** [setTimeout(task, ms)] *)
Definition setTimeout (task : Task) (b : Browser) : nat * Browser :=
  (next_handle b,
   {| armed := armed b ++ [(next_handle b, task)]; next_handle := S (next_handle b) |}).

(** [clearTimeout(h)] *)
Definition clearTimeout (h : nat) (b : Browser) : Browser :=
  {| armed := List.filter (fun t => negb (Nat.eqb t.1 h)) (armed b);
     next_handle := next_handle b |}.

(** [handleInputChange] *)
Definition handleInputChange (value : string) (s : State) (b : Browser)
  : State * Browser * list Call :=
  let b1 := match typingTimeoutRef s with
            | Some h => if Nat.eqb h 0 then b else clearTimeout h b
            | None => b
            end in
  if Js.truthy (Js.trim value) then
    let '(h, b2) := setTimeout TypingOff b1 in
    ({| newMessage := value; selectedFile := selectedFile s;
        previewUrl := previewUrl s; typingTimeoutRef := Some h |},
     b2, [OnTyping true])
  else
    ({| newMessage := value; selectedFile := selectedFile s;
        previewUrl := previewUrl s; typingTimeoutRef := typingTimeoutRef s |},
     b1, [OnTyping false]).

(** [clearFile] *)
Definition clearFile (s : State) : State * list Call :=
  ({| newMessage := newMessage s; selectedFile := None; previewUrl := None;
      typingTimeoutRef := typingTimeoutRef s |},
   match previewUrl s with
   | Some u => if Js.truthy u then [RevokeObjectURL u] else []
   | None => []
   end).

(** [handleSend] *)
Definition handleSend (s : State) (b : Browser) : State * Browser * list Call :=
  if negb (Js.truthy (Js.trim (newMessage s)))
     && negb (bool_decide (is_Some (selectedFile s)))
  then (s, b, [])
  else
    let send := match selectedFile s with
                | Some f => OnSendMessage (ArgOptions (Some (newMessage s)) (Some f))
                | None => OnSendMessage (ArgText (newMessage s))
                end in
    let s1 := {| newMessage := ""; selectedFile := selectedFile s;
                 previewUrl := previewUrl s;
                 typingTimeoutRef := typingTimeoutRef s |} in
    let '(s2, revoked) := clearFile s1 in
    let '(_, b1) := setTimeout FocusInput b in
    (s2, b1, [send] ++ revoked ++ [OnTyping false]).

(** The browser runs the timeout [h], if it is still pending. *)
Definition fire (h : nat) (s : State) (b : Browser) : State * Browser * list Call :=
  match List.find (fun t => Nat.eqb t.1 h) (armed b) with
  | Some (_, task) =>
      (s, clearTimeout h b,
       match task with
       | TypingOff => [OnTyping false]
       | FocusInput => []
       end)
  | None => (s, b, [])
  end.

(** What happens to the component, one thing after another. *)
Inductive Event :=
| Input (value : string)
| Send
| Fire (h : nat).

Definition step (e : Event) (x : State * Browser * list Call)
  : State * Browser * list Call :=
  let '(s, b, calls) := x in
  let '(s', b', new) :=
    match e with
    | Input value => handleInputChange value s b
    | Send => handleSend s b
    | Fire h => fire h s b
    end in
  (s', b', calls ++ new).

Definition run (events : list Event) (x : State * Browser * list Call)
  : State * Browser * list Call :=
  foldl (fun x e => step e x) x events.

(** A freshly mounted component in a browser with no pending timeout. *)
Definition mounted : State * Browser * list Call :=
  ({| newMessage := ""; selectedFile := None; previewUrl := None;
      typingTimeoutRef := None |},
   {| armed := []; next_handle := 1 |},
   []).

(** The typing flag announced last. *)
Definition last_typing (calls : list Call) : option bool :=
  last (omap (fun c => match c with OnTyping b => Some b | _ => None end) calls).

(** The handles of the pending "typing off" timeouts. *)
Definition typing_timers (b : Browser) : list nat :=
  omap (fun t => match t.2 with TypingOff => Some t.1 | FocusInput => None end) (armed b).

End Window.

(** What every reachable state of the message pane satisfies: handles
    are positive, fresh and distinct; a pending "typing off" timeout is
    the one the ref holds; and after announcing "typing" such a timeout
    is pending. *)
Definition pane_consistent (x : Window.State * Window.Browser * list Window.Call) : Prop :=
  let '(s, b, calls) := x in
  (0 < Window.next_handle b)%nat
  /\ (forall h t, (h, t) ∈ Window.armed b -> (0 < h < Window.next_handle b)%nat)
  /\ NoDup (Window.armed b).*1
  /\ (forall h, h ∈ Window.typing_timers b -> Window.typingTimeoutRef s = Some h)
  /\ (Window.last_typing calls = Some true -> Window.typing_timers b <> []).

(** The browser after the [clearTimeout] of [handleInputChange]. *)
Definition pane_cleared (s : Window.State) (b : Window.Browser) : Window.Browser :=
  match Window.typingTimeoutRef s with
  | Some h => if Nat.eqb h 0 then b else Window.clearTimeout h b
  | None => b
  end.

(** ** Accounts ([useAuth]) *)

Module Auth.

(** [c.toLowerCase()] on a code unit below 256: A-Z and the capital
    letters of Latin-1 move up by 32. *)
Definition lower_char (c : ascii) : ascii :=
  let n := N_of_ascii c in
  if ((65 <=? n) && (n <=? 90) || (192 <=? n) && (n <=? 222) && negb (n =? 215))%N
  then ascii_of_N (n + 32)
  else c.

(** [s.toLowerCase()] *)
Fixpoint toLowerCase (s : string) : string :=
  match s with
  | EmptyString => EmptyString
  | String c s' => String (lower_char c) (toLowerCase s')
  end.

(** [hay.includes(needle)] *)
Definition includes (hay needle : string) : bool :=
  match String.index 0 needle hay with
  | Some _ => true
  | None => false
  end.

(** The address under which a username is known to the auth service. *)
Definition email_of (username : string) : string :=
  toLowerCase username +:+ "@chat.local".

(** An error object of the backend, or one the hook makes up. *)
Record Error := {
  message : string;
  code : option string;
}.

(** The [{ data, error }] of an auth call, [data.user] reduced to its id. *)
Record Answer := {
  user : option string;
  error : option Error;
}.

Inductive Request :=
| AuthSignUp (email password : string)
| AuthSignIn (email password : string)
| AuthSignOut
| InsertProfile (user_id username : string) (online : bool)
| UpdateOnline (user_id : string) (online : bool).

(** What the caller gets: [{ error }] or [{ data, error: null }]. *)
Inductive Outcome :=
| Failure (e : Error)
| Success (user : option string).

(** [signUp] *)
Definition signUp (answer : Answer) (profileError : option Error)
    (username password : string) : Outcome * list Request :=
  let email := email_of username in
  match error answer with
  | Some e => (Failure e, [AuthSignUp email password])
  | None =>
      match user answer with
      | Some uid =>
          let requests :=
            [AuthSignUp email password; InsertProfile uid (toLowerCase username) true] in
          match profileError with
          | Some pe =>
              if bool_decide (code pe = Some "23505")
              then (Failure {| message := "Username already taken"; code := None |},
                    requests)
              else (Failure pe, requests)
          | None => (Success (Some uid), requests)
          end
      | None => (Success None, [AuthSignUp email password])
      end
  end.

(** [signIn] *)
Definition signIn (answer : Answer) (username password : string)
  : Outcome * list Request :=
  let email := email_of username in
  match error answer with
  | Some e =>
      if includes (message e) "Invalid login credentials"
      then (Failure {| message := "Invalid username or password"; code := None |},
            [AuthSignIn email password])
      else (Failure e, [AuthSignIn email password])
  | None =>
      match user answer with
      | Some uid => (Success (Some uid), [AuthSignIn email password; UpdateOnline uid true])
      | None => (Success None, [AuthSignIn email password])
      end
  end.

End Auth.

(** ** More of the sample conversation *)

Module Scenario.

(** A world at clock reading [ms] in which everything succeeds. *)
Definition world (ms : Z) : SendWorld :=
  {| upload_now := ms; upload_error := false;
     publicUrl := fun key => "https://cdn.example/" +:+ key;
     id_now := ms; created_now := ms; insert_error := false |}.

(** Two sends of A, one millisecond apart. *)
Definition two_sends : list (SendWorld * SendArg) :=
  [(world 1, ArgText " one "); (world 2, ArgOptions (Some "two") None)].

(** A timeline with one message of the peer and two placeholders. *)
Definition waiting : ChatState :=
  with_messages
    [Sample.read_msg; Sample.msg "temp-1" "A" "B" "one" 1; Sample.msg "temp-2" "A" "B" "two" 2]
    Sample.idle.

(** The echo of the second send. *)
Definition echo_two : Message.t := Sample.msg "srv-2" "A" "B" "two" 4.

Definition profile (i name : string) (on : bool) : Profile.t :=
  {| Profile.id := i; Profile.user_id := "u-" +:+ i; Profile.username := name;
     Profile.online := on; Profile.last_seen := None; Profile.created_at := 0 |}.

Definition alice : Profile.t := profile "A" "alice" true.
Definition bob : Profile.t := profile "B" "bob" false.
Definition carol : Profile.t := profile "C" "carol" false.

(** The directory of A, and B coming online. *)
Definition directory : Users.State :=
  {| Users.users := [bob; carol]; Users.loading := false |}.
Definition bob_online : Profile.t := profile "B" "bob" true.

(** A store in which A has talked with B only. *)
Definition db : Store.t :=
  {| Store.messages_tbl :=
       [Sample.msg "srv-1" "A" "B" "one" 10; Sample.msg "srv-2" "B" "A" "two" 20;
        Sample.msg "srv-3" "C" "B" "three" 30];
     Store.profiles_tbl := [alice; bob; carol] |}.

(** A draft in the message pane of a fresh browser. *)
Definition draft : Window.State :=
  {| Window.newMessage := " hi "; Window.selectedFile := None;
     Window.previewUrl := None; Window.typingTimeoutRef := None |}.

Definition browser : Window.Browser :=
  {| Window.armed := []; Window.next_handle := 1 |}.

(** The user types, pauses until the timeout fires, types again, sends. *)
Definition session : list Window.Event :=
  [Window.Input "h"; Window.Fire 1; Window.Input "hi"; Window.Input "hi!"; Window.Send].

End Scenario.

(** ** Proof support *)

Ltac hook_unfold :=
  cbv [sendMessage Earlier.sendMessage uploadFile loadMessages markAsSeen onInsert
       Earlier.onInsert onPresenceSync setOnNewMessage
       bind ret emit get setMessages setLoading setUploading setTypingUsers
       with_messages with_loading with_uploading with_typingUsers with_onNewMessage
       result final trace].

Ltac hook_run :=
  cbn -[pretty Js.trim Js.last_segment newMessage_of optimisticMessage_of
        fileName_of temp_id other_than String.eqb List.filter reconcile
        collect_typing].

(** Membership in an explicit trace: every position in turn. *)
Ltac pick_effect := repeat (first [left; reflexivity | right]).

(** ** Facts about JavaScript strings *)

Module JsFacts.
Import Js.

Lemma truthy_false s : truthy s = false <-> s = "".
Proof. destruct s; simpl; split; congruence. Qed.

Lemma or_empty s : Js.or s "" = s.
Proof. destruct s; reflexivity. Qed.

Lemma trimStart_blank s : blank s = true -> trimStart s = "".
Proof.
  induction s as [|c s IH]; simpl; [done|].
  destruct (is_whitespace c); simpl; [exact IH | discriminate].
Qed.

Lemma trimEnd_blank s : blank s = true <-> trimEnd s = "".
Proof.
  induction s as [|c s IH]; simpl; [done|].
  destruct (trimEnd s) eqn:E.
  - destruct (is_whitespace c); simpl; [tauto | split; discriminate].
  - split; [|discriminate].
    intros [_ H]%andb_true_iff. apply IH in H. discriminate.
Qed.

Lemma trimStart_empty s : trimStart s = "" -> blank s = true.
Proof.
  induction s as [|c s IH]; simpl; [done|].
  destruct (is_whitespace c); simpl; [exact IH | discriminate].
Qed.

Lemma blank_trimStart s : blank s = true -> blank (trimStart s) = true.
Proof. intros H. rewrite trimStart_blank; done. Qed.

Lemma trim_blank s : blank s = true <-> trim s = "".
Proof.
  unfold trim. split.
  - intros H. rewrite trimStart_blank; done.
  - intros H. apply trimEnd_blank in H.
    induction s as [|c s IH]; simpl in *; [done|].
    destruct (is_whitespace c) eqn:E; simpl in *; [auto|].
    rewrite E in H. discriminate.
Qed.

Lemma truthy_trim s : truthy (trim s) = negb (blank s).
Proof.
  destruct (blank s) eqn:E.
  - apply trim_blank in E. rewrite E. reflexivity.
  - destruct (truthy (trim s)) eqn:T; [done|].
    apply truthy_false, trim_blank in T. congruence.
Qed.

Lemma trimStart_first s c :
  first_char (trimStart s) = Some c -> is_whitespace c = false.
Proof.
  induction s as [|d s IH]; simpl; [done|].
  destruct (is_whitespace d) eqn:E; simpl; [exact IH|]. congruence.
Qed.

Lemma trimEnd_first s :
  trimEnd s <> "" -> first_char (trimEnd s) = first_char s.
Proof.
  destruct s as [|d s]; simpl; [done|].
  destruct (trimEnd s); [destruct (is_whitespace d)|]; done.
Qed.

Lemma trimEnd_last s c :
  last_char (trimEnd s) = Some c -> is_whitespace c = false.
Proof.
  induction s as [|d s IH]; simpl; [done|].
  destruct (trimEnd s) as [|e t] eqn:E.
  - destruct (is_whitespace d) eqn:W; simpl; [done|]. congruence.
  - intros H. apply IH. exact H.
Qed.

Lemma trim_first s c : first_char (trim s) = Some c -> is_whitespace c = false.
Proof.
  unfold trim. intros H. apply (trimStart_first s).
  rewrite <- trimEnd_first; [done|]. intros E. rewrite E in H. done.
Qed.

Lemma trim_last s c : last_char (trim s) = Some c -> is_whitespace c = false.
Proof. apply trimEnd_last. Qed.

Lemma append_cons c s t : String c s +:+ t = String c (s +:+ t).
Proof. reflexivity. Qed.

Lemma trimStart_split s : exists l, blank l = true /\ s = l +:+ trimStart s.
Proof.
  induction s as [|d s [l [Hl IH]]]; simpl.
  - exists "". done.
  - destruct (is_whitespace d) eqn:W.
    + exists (String d l). simpl. rewrite W, Hl. split; [done|]. rewrite append_cons. by f_equal.
    + exists "". done.
Qed.

Lemma trimEnd_split s : exists r, blank r = true /\ s = trimEnd s +:+ r.
Proof.
  induction s as [|d s [r [Hr IH]]]; simpl.
  - exists "". done.
  - destruct (trimEnd s) as [|e t] eqn:E.
    + destruct (is_whitespace d) eqn:W.
      * exists (String d r). simpl in *. rewrite W, Hr. split; [done|].
        change (String d s = String d r). change (s = r) in IH. by f_equal.
      * exists r. split; [done|]. rewrite append_cons. by f_equal.
    + exists r. split; [done|]. rewrite append_cons. by f_equal.
Qed.

Lemma trim_split s :
  exists l r, blank l = true /\ blank r = true /\ s = l +:+ trim s +:+ r.
Proof.
  destruct (trimStart_split s) as [l [Hl El]].
  destruct (trimEnd_split (trimStart s)) as [r [Hr Er]].
  exists l, r. unfold trim. by rewrite <- Er, <- El.
Qed.
End JsFacts.

Import JsFacts.

Lemma trim_stripped s : stripped s (Js.trim s).
Proof.
  split; [split|].
  - apply trim_first.
  - apply trim_last.
  - apply trim_split.
Qed.

(** ** Identifiers *)

Lemma str_truthy x : falsy x = false -> Some (str x) = x.
Proof. destruct x; [done|discriminate]. Qed.

Lemma same_id_true s x : same_id s x = true <-> Some s = x.
Proof.
  destruct x as [t|]; simpl; [|split; discriminate].
  rewrite String.eqb_eq. split; congruence.
Qed.

Lemma same_id_false s x : same_id s x = false <-> Some s <> x.
Proof.
  rewrite <- same_id_true. destruct (same_id s x); split; congruence.
Qed.

Lemma in_conversation_true cur sel m :
  in_conversation cur sel m = true <-> matches_pair cur sel m.
Proof.
  unfold in_conversation, matches_pair.
  rewrite orb_true_iff, !andb_true_iff, !same_id_true. done.
Qed.

Lemma in_conversation_false cur sel m :
  in_conversation cur sel m = false <-> ~ matches_pair cur sel m.
Proof.
  rewrite <- in_conversation_true.
  destruct (in_conversation cur sel m); split; congruence.
Qed.

(** ** Sending *)

Section Sending.

Variable w : SendWorld.
Variables cur sel : Id.
Variable st : ChatState.

(** C6. A send whose text is blank or white space only and that has no
    attachment does nothing: it returns the state it was given and leaves
    an empty effect trace, so no pending message is created, the timeline
    is unchanged and no durable write is issued. The same holds for the
    text-only [sendMessage] of the earlier revision. *)
Theorem send_blank_is_noop :
  (forall arg, Js.blank (arg_text arg) = true -> arg_file arg = None ->
     sendMessage w cur sel arg st = (FulfilledUndefined, st, []))
  /\ (forall text, Js.blank text = true ->
     Earlier.sendMessage w cur sel text st = (FulfilledUndefined, st, [])).
Proof.
  split.
  - intros arg Hb Hf. unfold sendMessage.
    rewrite truthy_trim, Hb, Hf.
    destruct (falsy cur || falsy sel); reflexivity.
  - intros text Hb. unfold Earlier.sendMessage.
    rewrite truthy_trim, Hb.
    destruct (falsy cur || falsy sel); reflexivity.
Qed.

(** C7. A send with an attachment tries the upload before anything
    else happens to the timeline or the store. When the upload fails and
    the text is blank, the send stops there: the timeline is unchanged
    and neither a pending message nor an insert appears. When the upload
    fails and the text is not blank, the send goes on with the trimmed
    text alone: the pending message and the inserted row carry no
    attachment field. *)
Theorem send_upload_failure arg f :
  falsy cur = false -> falsy sel = false ->
  arg_file arg = Some f ->
  let r := sendMessage w cur sel arg st in
  (exists rest,
     trace r = SetUploading true
               :: StorageUpload "chat-attachments" (fileName_of w cur f) f :: rest)
  /\ (upload_error w = true -> Js.blank (arg_text arg) = true ->
      messages (final r) = messages st
      /\ trace r = [SetUploading true;
                    StorageUpload "chat-attachments" (fileName_of w cur f) f;
                    ConsoleError "Error uploading file:";
                    SetUploading false])
  /\ (upload_error w = true -> Js.blank (arg_text arg) = false ->
      exists pending row rest,
        trace r = [SetUploading true;
                   StorageUpload "chat-attachments" (fileName_of w cur f) f;
                   ConsoleError "Error uploading file:";
                   SetMessages (messages st ++ [pending]);
                   SetUploading false;
                   InsertMessage row] ++ rest
        /\ text_only row pending
        /\ nm_text row = Js.trim (arg_text arg)
        /\ Message.text pending = Js.trim (arg_text arg)).
Proof.
  intros Hc Hs Hf r. subst r. hook_unfold.
  rewrite Hc, Hs, Hf, truthy_trim.
  split; [|split].
  - destruct (Js.blank (arg_text arg)), (upload_error w), (insert_error w);
      hook_run; eexists; reflexivity.
  - intros -> ->. hook_run. done.
  - intros -> ->. destruct (insert_error w); hook_run.
    all: do 3 eexists; split; [reflexivity|].
    all: unfold text_only, newMessage_of, optimisticMessage_of; cbn.
    all: rewrite or_empty; done.
Qed.

End Sending.

Lemma send_blank_is_noop_witness :
  Js.blank (arg_text (ArgText "   ")) = true
  /\ arg_file (ArgOptions None None) = None
  /\ sendMessage Sample.online Sample.A Sample.B (ArgText "   ") Sample.idle
     = (FulfilledUndefined, Sample.idle, [])
  /\ sendMessage Sample.online Sample.A Sample.B (ArgOptions None None) Sample.idle
     = (FulfilledUndefined, Sample.idle, [])
  /\ Earlier.sendMessage Sample.online Sample.A Sample.B "   " Sample.idle
     = (FulfilledUndefined, Sample.idle, []).
Proof.
  pose proof (send_blank_is_noop Sample.online Sample.A Sample.B Sample.idle) as [H1 H2].
  split; [reflexivity|]. split; [reflexivity|].
  split; [apply H1; reflexivity|].
  split; [apply H1; reflexivity|apply H2; reflexivity].
Defined.

Lemma send_upload_failure_witness :
  falsy Sample.A = false /\ falsy Sample.B = false
  /\ upload_error Sample.offline = true
  /\ (let r := sendMessage Sample.offline Sample.A Sample.B
                 (ArgOptions (Some "  ") (Some Sample.photo)) Sample.idle in
      messages (final r) = []
      /\ trace r = [SetUploading true;
                    StorageUpload "chat-attachments" "A/7.png" Sample.photo;
                    ConsoleError "Error uploading file:";
                    SetUploading false])
  /\ (let r := sendMessage Sample.offline Sample.A Sample.B
                 (ArgOptions (Some " hi ") (Some Sample.photo)) Sample.idle in
      exists pending row rest,
        trace r = [SetUploading true;
                   StorageUpload "chat-attachments" "A/7.png" Sample.photo;
                   ConsoleError "Error uploading file:";
                   SetMessages ([] ++ [pending]);
                   SetUploading false;
                   InsertMessage row] ++ rest
        /\ text_only row pending
        /\ nm_text row = "hi"
        /\ Message.text pending = "hi").
Proof.
  split; [reflexivity|]. split; [reflexivity|]. split; [reflexivity|]. split.
  - apply (send_upload_failure Sample.offline Sample.A Sample.B Sample.idle
             (ArgOptions (Some "  ") (Some Sample.photo)) Sample.photo);
      reflexivity.
  - apply (send_upload_failure Sample.offline Sample.A Sample.B Sample.idle
             (ArgOptions (Some " hi ") (Some Sample.photo)) Sample.photo);
      reflexivity.
Defined.

Section Durable.

Variable w : SendWorld.
Variables cur sel : Id.
Variable st : ChatState.

Lemma envelope_of input fd :
  falsy cur = false -> falsy sel = false ->
  same_envelope cur sel input
    (optimisticMessage_of w cur sel (newMessage_of cur sel input fd) fd)
    (newMessage_of cur sel input fd).
Proof.
  intros Hc Hs. unfold same_envelope. cbn.
  rewrite !str_truthy by done.
  assert (Js.or (Js.trim input) match fd with Some _ => "" | None => "" end
          = Js.trim input) as ->.
  { destruct fd; apply or_empty. }
  done.
Qed.

Lemma newMessage_text input fd : nm_text (newMessage_of cur sel input fd) = Js.trim input.
Proof. cbn. destruct fd; apply or_empty. Qed.

(** C10. Whenever a send reaches the durable write, the pending message
    appended to the timeline and the inserted row both carry the caller's
    text with the white space at its two ends removed, both name the
    local user as sender and the peer as receiver, and that text neither
    starts nor ends with white space. The same holds for the text-only
    [sendMessage] of the earlier revision. *)
Theorem send_text_is_trimmed row :
  (forall arg,
     InsertMessage row ∈ trace (sendMessage w cur sel arg st) ->
     exists pending,
       SetMessages (messages st ++ [pending]) ∈ trace (sendMessage w cur sel arg st)
       /\ same_envelope cur sel (arg_text arg) pending row
       /\ stripped (arg_text arg) (nm_text row))
  /\ (forall text,
     InsertMessage row ∈ trace (Earlier.sendMessage w cur sel text st) ->
     exists pending,
       SetMessages (messages st ++ [pending])
         ∈ trace (Earlier.sendMessage w cur sel text st)
       /\ same_envelope cur sel text pending row
       /\ stripped text (nm_text row)).
Proof.
  split.
  - intros arg. hook_unfold.
    destruct (falsy cur) eqn:Hc; [hook_run; by intros ?%elem_of_nil|].
    destruct (falsy sel) eqn:Hs; [hook_run; by intros ?%elem_of_nil|].
    pose proof (fun fd => envelope_of (arg_text arg) fd Hc Hs) as Henv.
    destruct (Js.truthy (Js.trim (arg_text arg))) eqn:Ht,
             (arg_file arg) as [f|] eqn:Hf,
             (upload_error w) eqn:Hu, (insert_error w) eqn:Hi; hook_run.
    all: rewrite ?elem_of_cons, ?elem_of_nil.
    all: intros Hin; repeat (destruct Hin as [Hin|Hin]; try discriminate Hin); try done.
    all: injection Hin as ->.
    all: eexists; split; [pick_effect|].
    all: split; [by apply Henv|].
    all: rewrite newMessage_text; apply trim_stripped.
  - intros text. hook_unfold.
    destruct (falsy cur) eqn:Hc; [hook_run; by intros ?%elem_of_nil|].
    destruct (falsy sel) eqn:Hs; [hook_run; by intros ?%elem_of_nil|].
    destruct (Js.truthy (Js.trim text)) eqn:Ht, (insert_error w) eqn:Hi; hook_run.
    all: rewrite ?elem_of_cons, ?elem_of_nil.
    all: intros Hin; repeat (destruct Hin as [Hin|Hin]; try discriminate Hin); try done.
    all: injection Hin as ->.
    all: eexists; split; [pick_effect|].
    all: split; [|apply trim_stripped].
    all: unfold same_envelope; cbn; by rewrite !str_truthy.
Qed.

End Durable.

Lemma send_text_is_trimmed_witness :
  InsertMessage Sample.hi_row
    ∈ trace (sendMessage Sample.online Sample.A Sample.B (ArgText "  hi ") Sample.idle)
  /\ (exists pending,
        SetMessages (messages Sample.idle ++ [pending])
          ∈ trace (sendMessage Sample.online Sample.A Sample.B (ArgText "  hi ")
                     Sample.idle)
        /\ same_envelope Sample.A Sample.B "  hi " pending Sample.hi_row
        /\ stripped "  hi " "hi")
  /\ InsertMessage Sample.hi_row
       ∈ trace (Earlier.sendMessage Sample.online Sample.A Sample.B "  hi " Sample.idle)
  /\ (exists pending,
        SetMessages (messages Sample.idle ++ [pending])
          ∈ trace (Earlier.sendMessage Sample.online Sample.A Sample.B "  hi "
                     Sample.idle)
        /\ same_envelope Sample.A Sample.B "  hi " pending Sample.hi_row
        /\ stripped "  hi " "hi").
Proof.
  pose proof (send_text_is_trimmed Sample.online Sample.A Sample.B Sample.idle
                Sample.hi_row) as [H1 H2].
  assert (InsertMessage Sample.hi_row
            ∈ trace (sendMessage Sample.online Sample.A Sample.B (ArgText "  hi ")
                       Sample.idle)) as I1
    by (vm_compute; pick_effect).
  assert (InsertMessage Sample.hi_row
            ∈ trace (Earlier.sendMessage Sample.online Sample.A Sample.B "  hi "
                       Sample.idle)) as I2
    by (vm_compute; pick_effect).
  split; [exact I1|]. split; [exact (H1 (ArgText "  hi ") I1)|].
  split; [exact I2|exact (H2 "  hi " I2)].
Defined.

(** ** Rollback of a failed send *)

Lemma filter_keeps_all {A} (f : A -> bool) (l : list A) :
  (forall x, x ∈ l -> f x = true) -> List.filter f l = l.
Proof.
  induction l as [|a l IH]; intros H; simpl; [done|].
  rewrite H by left. f_equal. apply IH. intros x Hx. apply H. by right.
Qed.

Lemma rollback_app (l : list Message.t) (p : Message.t) :
  List.filter (other_than (Message.id p)) (l ++ [p])
  = List.filter (other_than (Message.id p)) l.
Proof.
  rewrite List.filter_app. simpl. unfold other_than at 2.
  rewrite String.eqb_refl. simpl. apply app_nil_r.
Qed.






(** ** Reconciliation of inbound events *)

Lemma existsb_present (i : string) (l : list Message.t) :
  existsb (fun m => String.eqb (Message.id m) i) l = true <-> present i l.
Proof.
  rewrite existsb_exists. unfold present.
  split; intros (m & Hm & E); exists m; split.
  - by apply list_elem_of_In.
  - by apply String.eqb_eq.
  - by apply list_elem_of_In.
  - by apply String.eqb_eq.
Qed.

Lemma reconcile_present newMsg prev :
  present (Message.id newMsg) prev -> reconcile newMsg prev = prev.
Proof. intros H. unfold reconcile. apply existsb_present in H. by rewrite H. Qed.

Lemma reconcile_absent newMsg prev :
  ~ present (Message.id newMsg) prev ->
  reconcile newMsg prev = List.filter (fun m => negb (is_temp m)) prev ++ [newMsg].
Proof.
  intros H. unfold reconcile.
  destruct (existsb _ prev) eqn:E; [|done]. by apply existsb_present in E.
Qed.

Lemma present_after newMsg prev : present (Message.id newMsg) (reconcile newMsg prev).
Proof.
  unfold reconcile. destruct (existsb _ prev) eqn:E.
  - by apply existsb_present.
  - exists newMsg. split; [|done]. apply elem_of_app. right. by left.
Qed.

Lemma reconcile_twice newMsg prev :
  reconcile newMsg (reconcile newMsg prev) = reconcile newMsg prev.
Proof. apply reconcile_present, present_after. Qed.

Lemma onInsert_final cur sel newMsg st :
  final (onInsert cur sel newMsg st)
  = if in_conversation cur sel newMsg
    then with_messages (reconcile newMsg (messages st)) st
    else st.
Proof.
  hook_unfold. unfold with_messages.
  destruct (in_conversation cur sel newMsg); [|done].
  destruct (same_id (Message.receiver_id newMsg) cur), (falsy cur), (falsy sel),
    (onNewMessageRef st), (same_id (Message.sender_id newMsg) cur); reflexivity.
Qed.

Lemma Earlier_onInsert_final cur sel newMsg st :
  final (Earlier.onInsert cur sel newMsg st)
  = if in_conversation cur sel newMsg
    then with_messages (reconcile newMsg (messages st)) st
    else st.
Proof.
  hook_unfold. unfold with_messages.
  destruct (in_conversation cur sel newMsg); [|done].
  destruct (same_id (Message.receiver_id newMsg) cur), (falsy cur), (falsy sel);
    reflexivity.
Qed.

Lemma onInsert_trace cur sel newMsg st :
  trace (onInsert cur sel newMsg st)
  = if in_conversation cur sel newMsg then
      SetMessages (reconcile newMsg (messages st))
      :: (if same_id (Message.receiver_id newMsg) cur
          then trace (markAsSeen cur sel st) else [])
      ++ match onNewMessageRef st with
         | Some callback =>
             if same_id (Message.sender_id newMsg) cur then []
             else [InvokeCallback callback newMsg]
         | None => []
         end
    else [].
Proof.
  hook_unfold.
  destruct (in_conversation cur sel newMsg); [|done].
  destruct (same_id (Message.receiver_id newMsg) cur), (falsy cur), (falsy sel),
    (onNewMessageRef st), (same_id (Message.sender_id newMsg) cur); reflexivity.
Qed.

(** C1, as the code has it. An inbound "message created" event that
    does not belong to the active pair, in either direction, leaves the
    state unchanged and has no effect at all. One whose identifier is
    already in the timeline leaves the timeline unchanged. Any other one
    removes every pending placeholder (every entry whose identifier
    starts with "temp-") and appends the authoritative message at the
    end. Both revisions of the handler yield the same timeline. *)
Theorem reconcile_on_insert cur sel newMsg st :
  let r := onInsert cur sel newMsg st in
  let r0 := Earlier.onInsert cur sel newMsg st in
  (~ matches_pair cur sel newMsg ->
     final r = st /\ trace r = [] /\ final r0 = st /\ trace r0 = [])
  /\ (matches_pair cur sel newMsg ->
      present (Message.id newMsg) (messages st) ->
      messages (final r) = messages st /\ messages (final r0) = messages st)
  /\ (matches_pair cur sel newMsg ->
      ~ present (Message.id newMsg) (messages st) ->
      messages (final r)
        = List.filter (fun m => negb (is_temp m)) (messages st) ++ [newMsg]
      /\ messages (final r0) = messages (final r)).
Proof.
  intros r r0. subst r r0.
  rewrite onInsert_final, Earlier_onInsert_final.
  split; [|split].
  - intros E%in_conversation_false. rewrite E. hook_unfold. rewrite E. done.
  - intros E%in_conversation_true H. rewrite E. cbn. by rewrite reconcile_present.
  - intros E%in_conversation_true H. rewrite E. cbn. by rewrite reconcile_absent.
Qed.

Lemma reconcile_on_insert_witness :
  ~ matches_pair Sample.A Sample.B (Sample.msg "srv-x" "C" "A" "other" 15)
  /\ matches_pair Sample.A Sample.B Sample.echo_one
  /\ ~ present "srv-1" (messages Sample.two_pending)
  /\ final (onInsert Sample.A Sample.B (Sample.msg "srv-x" "C" "A" "other" 15)
              Sample.two_pending) = Sample.two_pending
  /\ messages (final (onInsert Sample.A Sample.B Sample.echo_one Sample.two_pending))
     = [Sample.echo_one]
  /\ messages (final (onInsert Sample.A Sample.B Sample.echo_one
                        (with_messages [Sample.echo_one] Sample.idle)))
     = [Sample.echo_one].
Proof.
  assert (~ matches_pair Sample.A Sample.B (Sample.msg "srv-x" "C" "A" "other" 15)) as N
    by (apply in_conversation_false; reflexivity).
  assert (matches_pair Sample.A Sample.B Sample.echo_one) as P
    by (apply in_conversation_true; reflexivity).
  assert (~ present "srv-1" (messages Sample.two_pending)) as F
    by (intros H%existsb_present; discriminate H).
  split; [exact N|]. split; [exact P|]. split; [exact F|]. split; [|split].
  - exact (proj1 (proj1 (reconcile_on_insert Sample.A Sample.B _ Sample.two_pending) N)).
  - exact (proj1 (proj2 (proj2 (reconcile_on_insert Sample.A Sample.B Sample.echo_one
                                  Sample.two_pending)) P F)).
  - refine (proj1 (proj1 (proj2 (reconcile_on_insert Sample.A Sample.B Sample.echo_one
                                   (with_messages [Sample.echo_one] Sample.idle))) P _)).
    apply existsb_present. reflexivity.
Defined.

(** C1, as stated, fails. A has two sends waiting for their echoes; the
    echo of the first arrives, and both placeholders leave the timeline,
    not at most one. *)
Lemma reconcile_removes_two_placeholders :
  matches_pair Sample.A Sample.B Sample.echo_one
  /\ ~ present (Message.id Sample.echo_one) (messages Sample.two_pending)
  /\ length (messages Sample.two_pending) = 2%nat
  /\ messages (final (onInsert Sample.A Sample.B Sample.echo_one Sample.two_pending))
     = [Sample.echo_one]
  /\ ~ removes_at_most_one Sample.A Sample.B Sample.echo_one Sample.two_pending.
Proof.
  split; [apply in_conversation_true; reflexivity|].
  split; [intros H%existsb_present; discriminate H|].
  split; [reflexivity|]. split; [reflexivity|].
  intros (removed & kept & Hlen & _ & Hperm & Hfinal).
  change (messages (final (onInsert Sample.A Sample.B Sample.echo_one Sample.two_pending)))
    with ([] ++ [Sample.echo_one]) in Hfinal.
  apply app_inj_tail in Hfinal as [<- _].
  apply Permutation_length in Hperm. rewrite app_nil_r in Hperm.
  cbn in Hperm. lia.
Qed.

(** C3. Reconciliation is idempotent: handling the same inbound
    "message created" event a second time, right after the first, yields
    the state the first handling produced, in both revisions of the
    handler. *)
Theorem reconcile_idempotent cur sel newMsg st :
  final (onInsert cur sel newMsg (final (onInsert cur sel newMsg st)))
  = final (onInsert cur sel newMsg st)
  /\ final (Earlier.onInsert cur sel newMsg (final (Earlier.onInsert cur sel newMsg st)))
     = final (Earlier.onInsert cur sel newMsg st).
Proof.
  rewrite !onInsert_final, !Earlier_onInsert_final.
  destruct (in_conversation cur sel newMsg); [|done].
  unfold with_messages; cbn. by rewrite reconcile_twice.
Qed.

(** ** The new-message callback *)

Lemma markAsSeen_invokes_nothing cur sel st :
  omap invoked (trace (markAsSeen cur sel st)) = [].
Proof. hook_unfold. destruct (falsy cur), (falsy sel); reflexivity. Qed.

Lemma onInsert_invocations cur sel newMsg st :
  omap invoked (trace (onInsert cur sel newMsg st))
  = if in_conversation cur sel newMsg && negb (same_id (Message.sender_id newMsg) cur)
    then match onNewMessageRef st with Some cb => [(cb, newMsg)] | None => [] end
    else [].
Proof.
  rewrite onInsert_trace.
  destruct (in_conversation cur sel newMsg); [|done].
  cbn [omap list_omap invoked andb]. rewrite omap_app.
  assert (omap invoked (if same_id (Message.receiver_id newMsg) cur
                        then trace (markAsSeen cur sel st) else []) = []) as ->.
  { destruct (same_id _ cur); [apply markAsSeen_invokes_nothing|done]. }
  destruct (onNewMessageRef st), (same_id (Message.sender_id newMsg) cur); reflexivity.
Qed.

Lemma onInsert_keeps_callback cur sel newMsg st :
  onNewMessageRef (final (onInsert cur sel newMsg st)) = onNewMessageRef st.
Proof. rewrite onInsert_final. by destruct (in_conversation cur sel newMsg). Qed.

(** C4, as the code has it. With a callback registered, every delivery
    of an inbound event that belongs to the active pair and whose sender
    is not the local user invokes that callback exactly once, with the
    raw message, as the last effect of the handler and after the
    timeline update; this holds whether or not the identifier is already
    in the timeline, so a second delivery of the same event invokes the
    callback again. No other delivery invokes anything. Registering a
    callback replaces the one registered before. *)
Theorem callback_on_every_delivery cur sel newMsg st :
  let r := onInsert cur sel newMsg st in
  (forall cb,
     onNewMessageRef st = Some cb ->
     matches_pair cur sel newMsg ->
     Some (Message.sender_id newMsg) <> cur ->
     omap invoked (trace r) = [(cb, newMsg)]
     /\ head (trace r) = Some (SetMessages (messages (final r)))
     /\ last (trace r) = Some (InvokeCallback cb newMsg)
     /\ present (Message.id newMsg) (messages (final r))
     /\ omap invoked (trace (onInsert cur sel newMsg (final r))) = [(cb, newMsg)])
  /\ (~ matches_pair cur sel newMsg \/ Some (Message.sender_id newMsg) = cur
      \/ onNewMessageRef st = None ->
      omap invoked (trace r) = [])
  /\ (forall cb1 cb2,
      onNewMessageRef (final (setOnNewMessage cb2 (final (setOnNewMessage cb1 st))))
      = Some cb2).
Proof.
  intros r. subst r. split; [|split].
  - intros cb Hcb Hpair Hsender.
    apply in_conversation_true in Hpair. apply same_id_false in Hsender.
    rewrite !onInsert_invocations, onInsert_keeps_callback.
    rewrite onInsert_final, onInsert_trace, Hpair, Hsender, Hcb. cbn [andb negb].
    repeat split.
    + rewrite app_comm_cons. apply last_snoc.
    + apply present_after.
  - intros H. rewrite onInsert_invocations.
    destruct (in_conversation cur sel newMsg) eqn:E; [|done].
    destruct (same_id (Message.sender_id newMsg) cur) eqn:E2; [done|].
    destruct H as [H|[H|H]].
    + apply in_conversation_false in H. congruence.
    + apply same_id_true in H. congruence.
    + by rewrite H.
  - reflexivity.
Qed.

Lemma callback_on_every_delivery_witness :
  onNewMessageRef Sample.listening = Some (Cb 0)
  /\ matches_pair Sample.A Sample.B Sample.from_peer
  /\ Some (Message.sender_id Sample.from_peer) <> Sample.A
  /\ (let r := onInsert Sample.A Sample.B Sample.from_peer Sample.listening in
      omap invoked (trace r) = [(Cb 0, Sample.from_peer)]
      /\ head (trace r) = Some (SetMessages (messages (final r)))
      /\ last (trace r) = Some (InvokeCallback (Cb 0) Sample.from_peer)
      /\ present (Message.id Sample.from_peer) (messages (final r))
      /\ omap invoked (trace (onInsert Sample.A Sample.B Sample.from_peer (final r)))
         = [(Cb 0, Sample.from_peer)])
  /\ omap invoked (trace (onInsert Sample.A Sample.B Sample.echo_one Sample.listening))
     = [].
Proof.
  assert (matches_pair Sample.A Sample.B Sample.from_peer) as P
    by (apply in_conversation_true; reflexivity).
  assert (Some (Message.sender_id Sample.from_peer) <> Sample.A) as N
    by discriminate.
  split; [reflexivity|]. split; [exact P|]. split; [exact N|]. split.
  - exact (proj1 (callback_on_every_delivery Sample.A Sample.B Sample.from_peer
                    Sample.listening) (Cb 0) eq_refl P N).
  - apply (proj1 (proj2 (callback_on_every_delivery Sample.A Sample.B Sample.echo_one
                           Sample.listening))).
    right. left. reflexivity.
Defined.

(** C4, as stated, fails. B's message is delivered to A twice. At the
    second delivery its identifier is already in the timeline and the
    timeline does not change, yet the callback is invoked a second
    time. *)
Lemma duplicate_delivery_invokes_again :
  let first := onInsert Sample.A Sample.B Sample.from_peer Sample.listening in
  let second := onInsert Sample.A Sample.B Sample.from_peer (final first) in
  present (Message.id Sample.from_peer) (messages (final first))
  /\ messages (final second) = messages (final first)
  /\ omap invoked (trace first) = [(Cb 0, Sample.from_peer)]
  /\ omap invoked (trace second) = [(Cb 0, Sample.from_peer)]
  /\ omap invoked (trace second) <> [].
Proof.
  cbv zeta. split; [apply existsb_present; reflexivity|].
  split; [reflexivity|]. split; [reflexivity|]. split; [reflexivity|discriminate].
Qed.

(** ** The seen flag *)

Lemma lookup_id_filter (g : string -> bool) i l :
  lookup_id i (List.filter (fun m => g (Message.id m)) l)
  = if g i then lookup_id i l else None.
Proof.
  unfold lookup_id. induction l as [|a l IH]; simpl; [by destruct (g i)|].
  destruct (String.eqb_spec (Message.id a) i) as [E|E].
  - rewrite E. destruct (g i) eqn:G; simpl.
    + rewrite <- E at 1. by rewrite String.eqb_refl.
    + rewrite IH. done.
  - destruct (g (Message.id a)); simpl; [|exact IH].
    destruct (String.eqb_spec (Message.id a) i); [done|exact IH].
Qed.

Lemma lookup_id_app_Some i l1 l2 m :
  lookup_id i l1 = Some m -> lookup_id i (l1 ++ l2) = Some m.
Proof.
  unfold lookup_id. induction l1 as [|a l1 IH]; simpl; [done|].
  destruct (String.eqb (Message.id a) i); [done|exact IH].
Qed.

Lemma lookup_id_present i l m : lookup_id i l = Some m -> present i l.
Proof.
  unfold lookup_id. intros H. apply find_some in H as [H E].
  exists m. split; [by apply list_elem_of_In|by apply String.eqb_eq].
Qed.

Lemma lookup_id_snoc_other i l m :
  Message.id m <> i -> lookup_id i (l ++ [m]) = lookup_id i l.
Proof.
  intros H. unfold lookup_id. induction l as [|a l IH]; simpl.
  - by destruct (String.eqb_spec (Message.id m) i).
  - by rewrite IH.
Qed.

Lemma lookup_id_reconcile i newMsg l m :
  lookup_id i l = Some m ->
  lookup_id i (reconcile newMsg l) = Some m \/ lookup_id i (reconcile newMsg l) = None.
Proof.
  intros H. unfold reconcile. destruct (existsb _ l) eqn:E; [by left|].
  assert (Message.id newMsg <> i) as Hne.
  { intros <-. apply lookup_id_present, existsb_present in H. congruence. }
  rewrite lookup_id_snoc_other by done.
  unfold is_temp.
  rewrite (lookup_id_filter (fun j => negb (Js.startsWith j "temp-"))).
  destruct (negb _); [by left|by right].
Qed.

Lemma sendMessage_messages w cur sel arg st :
  let after := messages (final (sendMessage w cur sel arg st)) in
  after = messages st
  \/ (exists p, Message.id p = temp_id w /\ Message.seen p = false
               /\ after = messages st ++ [p])
  \/ after = List.filter (other_than (temp_id w)) (messages st).
Proof.
  hook_unfold.
  destruct (falsy cur), (falsy sel), (Js.truthy (Js.trim (arg_text arg))),
    (arg_file arg), (upload_error w), (insert_error w); hook_run; auto.
  all: right.
  all: first [ left; eexists; split; [|split; [|reflexivity]]; reflexivity
             | right; apply rollback_app ].
Qed.

Lemma sendMessage_no_update w cur sel arg st from to :
  UpdateSeen from to ∉ trace (sendMessage w cur sel arg st).
Proof.
  hook_unfold.
  destruct (falsy cur), (falsy sel), (Js.truthy (Js.trim (arg_text arg))),
    (arg_file arg), (upload_error w), (insert_error w); hook_run.
  all: rewrite ?not_elem_of_cons; repeat split; try discriminate; apply not_elem_of_nil.
Qed.

Lemma markAsSeen_run cur sel st :
  final (markAsSeen cur sel st) = st
  /\ forall e, e ∈ trace (markAsSeen cur sel st) -> e = UpdateSeen (str sel) (str cur).
Proof.
  hook_unfold.
  destruct (falsy cur || falsy sel); cbn; split; try done.
  - by intros e ?%elem_of_nil.
  - by intros e ->%list_elem_of_singleton.
Qed.

Lemma perform_send w cur sel arg st :
  final (perform cur sel (Send w arg) st) = final (sendMessage w cur sel arg st)
  /\ trace (perform cur sel (Send w arg) st) = trace (sendMessage w cur sel arg st).
Proof.
  unfold perform, bind, ret, final, trace.
  destruct (sendMessage w cur sel arg st) as [[? ?] ?]. cbn.
  by rewrite app_nil_r.
Qed.

Lemma update_seen_lookup from to rows (i : nat) m :
  rows !! i = Some m ->
  exists m', Store.update_seen from to rows !! i = Some m'
    /\ (m' = m
        \/ (m' = Message.with_seen true m /\ Message.seen m = false
            /\ Message.sender_id m = from /\ Message.receiver_id m = to)).
Proof.
  intros H. unfold Store.update_seen.
  change (@List.map) with (@fmap list _). rewrite list_lookup_fmap, H. cbn.
  eexists; split; [reflexivity|].
  unfold Store.unseen_from.
  destruct (String.eqb_spec (Message.sender_id m) from),
           (String.eqb_spec (Message.receiver_id m) to),
           (Message.seen m) eqn:S; cbn; auto.
Qed.

(** C5. The seen flag is monotonic. Whatever the operation (a send,
    the handling of an inbound event, seen-marking), the message that the
    timeline shows under an identifier, once its seen flag is true, is
    afterwards either the very same message or gone; every entry of the
    new timeline is an entry of the old one or the entry the operation
    adds; the only seen-update any operation issues is the one for
    messages sent by the peer to the local user; and that update leaves
    every row whose flag is true as it is, changing only rows from the
    peer to the local user whose flag is false, to true. *)
Theorem seen_is_monotonic cur sel :
  (forall op st i m,
     lookup_id i (messages st) = Some m -> Message.seen m = true ->
     let st' := final (perform cur sel op st) in
     lookup_id i (messages st') = Some m \/ lookup_id i (messages st') = None)
  /\ (forall op st m',
      m' ∈ messages (final (perform cur sel op st)) ->
      m' ∈ messages st \/ added_by op st m')
  /\ (forall op st from to,
      UpdateSeen from to ∈ trace (perform cur sel op st) ->
      from = str sel /\ to = str cur)
  /\ (forall rows (i : nat) m,
      rows !! i = Some m ->
      exists m',
        Store.update_seen (str sel) (str cur) rows !! i = Some m'
        /\ (Message.seen m = true -> m' = m)
        /\ (m' = m
            \/ (m' = Message.with_seen true m /\ Message.seen m = false
                /\ Message.sender_id m = str sel /\ Message.receiver_id m = str cur))).
Proof.
  split; [|split; [|split]].
  - intros op st i m Hm Hseen st'. subst st'. destruct op as [w arg| newMsg |].
    + rewrite (proj1 (perform_send w cur sel arg st)).
      destruct (sendMessage_messages w cur sel arg st) as [-> | [(p & Hid & Hs & ->) | ->]].
      * by left.
      * left. by apply lookup_id_app_Some.
      * unfold other_than.
        rewrite (lookup_id_filter (fun j => negb (String.eqb j (temp_id w)))).
        destruct (negb _); [by left|by right].
    + cbn [perform]. rewrite onInsert_final.
      destruct (in_conversation cur sel newMsg); [|by left].
      cbn. by apply lookup_id_reconcile.
    + cbn [perform]. rewrite (proj1 (markAsSeen_run cur sel st)). by left.
  - intros op st m'. destruct op as [w arg| newMsg |]; cbn [added_by].
    + rewrite (proj1 (perform_send w cur sel arg st)).
      destruct (sendMessage_messages w cur sel arg st) as [-> | [(p & Hid & Hs & ->) | ->]].
      * by left.
      * intros [H| ->%list_elem_of_singleton]%elem_of_app; [by left|by right].
      * intros H. left. apply list_elem_of_In in H. apply filter_In in H as [H _].
        by apply list_elem_of_In.
    + cbn [perform]. rewrite onInsert_final.
      destruct (in_conversation cur sel newMsg); [|by left].
      cbn. unfold reconcile. destruct (existsb _ (messages st)) eqn:E; [by left|].
      intros [H| ->%list_elem_of_singleton]%elem_of_app.
      * left. apply list_elem_of_In in H. apply filter_In in H as [H _].
        by apply list_elem_of_In.
      * right. split; [done|]. intros H%existsb_present. congruence.
    + cbn [perform]. rewrite (proj1 (markAsSeen_run cur sel st)). by left.
  - intros op st from to. destruct op as [w arg| newMsg |].
    + rewrite (proj2 (perform_send w cur sel arg st)).
      intros H. by apply sendMessage_no_update in H.
    + cbn [perform]. rewrite onInsert_trace.
      destruct (in_conversation cur sel newMsg); [|by intros ?%elem_of_nil].
      rewrite elem_of_cons, elem_of_app. intros [H|[H|H]]; [discriminate| |].
      * destruct (same_id _ cur); [|by apply elem_of_nil in H].
        apply (proj2 (markAsSeen_run cur sel st)) in H. by injection H as -> ->.
      * destruct (onNewMessageRef st), (same_id (Message.sender_id newMsg) cur).
        all: try by apply elem_of_nil in H.
        apply list_elem_of_singleton in H. discriminate.
    + cbn [perform]. intros H.
      apply (proj2 (markAsSeen_run cur sel st)) in H. by injection H as -> ->.
  - intros rows i m H.
    destruct (update_seen_lookup (str sel) (str cur) rows i m H) as (m' & Hm' & Hcase).
    exists m'. split; [done|]. split; [|done].
    intros Hs. destruct Hcase as [->|(_ & Hf & _)]; [done|congruence].
Qed.

Lemma seen_is_monotonic_witness :
  lookup_id "srv-7" (messages Sample.has_read) = Some Sample.read_msg
  /\ Message.seen Sample.read_msg = true
  /\ (let st' := final (perform Sample.A Sample.B (Inserted Sample.from_peer)
                          Sample.has_read) in
      lookup_id "srv-7" (messages st') = Some Sample.read_msg
      \/ lookup_id "srv-7" (messages st') = None)
  /\ (let st' := final (perform Sample.A Sample.B (Send Sample.offline (ArgText "hi"))
                          Sample.has_read) in
      lookup_id "srv-7" (messages st') = Some Sample.read_msg
      \/ lookup_id "srv-7" (messages st') = None)
  /\ UpdateSeen "B" "A"
       ∈ trace (perform Sample.A Sample.B (Inserted Sample.from_peer) Sample.has_read)
  /\ (exists m',
        Store.update_seen "B" "A" [Sample.read_msg; Sample.from_peer] !! 1%nat = Some m'
        /\ (Message.seen Sample.from_peer = true -> m' = Sample.from_peer)
        /\ (m' = Sample.from_peer
            \/ (m' = Message.with_seen true Sample.from_peer
                /\ Message.seen Sample.from_peer = false
                /\ Message.sender_id Sample.from_peer = "B"
                /\ Message.receiver_id Sample.from_peer = "A"))).
Proof.
  destruct (seen_is_monotonic Sample.A Sample.B) as (H1 & _ & _ & H4).
  split; [reflexivity|]. split; [reflexivity|].
  split; [apply H1; reflexivity|]. split; [apply H1; reflexivity|].
  split; [vm_compute; pick_effect|].
  apply (H4 [Sample.read_msg; Sample.from_peer] 1%nat Sample.from_peer). reflexivity.
Defined.

(** ** Loading the history *)

Lemma created_le_total : Total Store.created_le.
Proof. intros a b. unfold Store.created_le. lia. Qed.

Lemma created_le_trans : Transitive Store.created_le.
Proof. intros a b c. unfold Store.created_le. lia. Qed.

Lemma select_history_sorted db me peer :
  StronglySorted Store.created_le (Store.select_history db me peer).
Proof.
  unfold Store.select_history.
  apply (@StronglySorted_merge_sort _ _ _ created_le_trans created_le_total).
Qed.

Lemma select_history_elem db me peer m :
  m ∈ Store.select_history db me peer
  <-> exists row, row ∈ Store.messages_tbl db
                  /\ Store.between me peer row = true
                  /\ m = Store.join_sender db row.
Proof.
  unfold Store.select_history. rewrite merge_sort_Permutation.
  rewrite list_elem_of_In, in_map_iff. split.
  - intros (row & <- & H). apply filter_In in H as [H1 H2].
    exists row. by rewrite list_elem_of_In.
  - intros (row & H1 & H2 & ->). exists row. split; [done|].
    apply filter_In. by rewrite <- list_elem_of_In.
Qed.

Lemma loadMessages_final resp cur sel st :
  falsy cur = false -> falsy sel = false ->
  final (loadMessages resp cur sel st)
  = with_loading false
      (match error resp, data resp with
       | None, Some rows => with_messages rows st
       | _, _ => st
       end).
Proof.
  intros Hc Hs. hook_unfold. rewrite Hc, Hs.
  destruct (error resp), (data resp); reflexivity.
Qed.

(** C8. A load whose history fetch fails (an error is reported, or no
    rows come back) keeps the timeline and every other field of the prior
    state, and clears the loading flag. A load that succeeds replaces the
    timeline wholesale by the fetched rows; when these are the answer of
    the store to the history query, they are exactly the stored messages
    between the two users, ordered ascending by creation time. *)
Theorem load_keeps_or_replaces resp cur sel st :
  falsy cur = false -> falsy sel = false ->
  let r := loadMessages resp cur sel st in
  loading (final r) = false
  /\ (error resp <> None \/ data resp = None ->
      final r = with_loading false st /\ messages (final r) = messages st)
  /\ (forall rows, error resp = None -> data resp = Some rows ->
      messages (final r) = rows)
  /\ (forall db e, resp = Store.respond (Some e) db (str cur) (str sel) ->
      messages (final r) = messages st)
  /\ (forall db, resp = Store.respond None db (str cur) (str sel) ->
      messages (final r) = Store.select_history db (str cur) (str sel)
      /\ StronglySorted Store.created_le (messages (final r))
      /\ forall m, m ∈ messages (final r)
           <-> exists row, row ∈ Store.messages_tbl db
                           /\ Store.between (str cur) (str sel) row = true
                           /\ m = Store.join_sender db row).
Proof.
  intros Hc Hs r. subst r. rewrite loadMessages_final by done.
  split; [done|]. split; [|split; [|split]].
  - intros [H|H].
    + destruct (error resp); [|done]. by destruct (data resp).
    + rewrite H. by destruct (error resp).
  - intros rows -> ->. done.
  - intros db e ->. done.
  - intros db ->. cbn. split; [done|]. split.
    + apply select_history_sorted.
    + apply select_history_elem.
Qed.

Lemma load_keeps_or_replaces_witness :
  falsy Sample.A = false /\ falsy Sample.B = false
  /\ messages (final (loadMessages (Store.respond (Some "offline") Sample.db "A" "B")
                        Sample.A Sample.B Sample.has_read))
     = [Sample.read_msg]
  /\ loading (final (loadMessages (Store.respond (Some "offline") Sample.db "A" "B")
                       Sample.A Sample.B Sample.has_read)) = false
  /\ messages (final (loadMessages (Store.respond None Sample.db "A" "B")
                        Sample.A Sample.B Sample.has_read))
     = [Sample.msg "srv-1" "A" "B" "one" 10; Sample.msg "srv-2" "B" "A" "two" 20;
        Sample.msg "srv-3" "B" "A" "three" 30].
Proof.
  pose proof (load_keeps_or_replaces (Store.respond (Some "offline") Sample.db "A" "B")
                Sample.A Sample.B Sample.has_read eq_refl eq_refl) as (L & _ & _ & F & _).
  pose proof (load_keeps_or_replaces (Store.respond None Sample.db "A" "B")
                Sample.A Sample.B Sample.has_read eq_refl eq_refl) as (_ & _ & _ & _ & S).
  split; [reflexivity|]. split; [reflexivity|].
  split; [exact (F Sample.db "offline" eq_refl)|]. split; [exact L|].
  rewrite (proj1 (S Sample.db eq_refl)). reflexivity.
Defined.

(** ** Who is typing *)

Lemma collect_inner cur (ps : list Presence) (acc : gset string) x :
  x ∈ foldl (fun typing p => if announces cur p
                             then typing ∪ {[ profileId p ]} else typing) acc ps
  <-> x ∈ acc \/ exists p, p ∈ ps /\ announces cur p = true /\ profileId p = x.
Proof.
  revert acc. induction ps as [|q ps IH]; intros acc; cbn [foldl].
  - split; [by left|]. intros [H|(p & H & _)]; [done|]. by apply elem_of_nil in H.
  - rewrite IH. split.
    + intros [H|(p & Hp & Ha & E)].
      * destruct (announces cur q) eqn:A; [|by left].
        apply elem_of_union in H as [H|H]; [by left|].
        apply elem_of_singleton in H. right. exists q. split; [by left|done].
      * right. exists p. split; [by right|done].
    + intros [H|(p & Hp & Ha & E)].
      * left. destruct (announces cur q); [|done]. apply elem_of_union. by left.
      * apply elem_of_cons in Hp as [->|Hp].
        -- left. rewrite Ha. apply elem_of_union. right. by apply elem_of_singleton.
        -- right. by exists p.
Qed.

Lemma collect_outer cur (state : PresenceState) (acc : gset string) x :
  x ∈ foldl (fun typing entry =>
               foldl (fun typing p => if announces cur p
                                      then typing ∪ {[ profileId p ]} else typing)
                     typing entry.2) acc state
  <-> x ∈ acc \/ exists key ps p, (key, ps) ∈ state /\ p ∈ ps
                                  /\ announces cur p = true /\ profileId p = x.
Proof.
  revert acc. induction state as [|[k qs] state IH]; intros acc; cbn [foldl].
  - split; [by left|]. intros [H|(key & ps & p & H & _)]; [done|].
    by apply elem_of_nil in H.
  - rewrite IH, collect_inner. cbn [snd]. split.
    + intros [[H|(p & Hp & Ha)]|(key & ps & p & Hin & Hrest)].
      * by left.
      * right. exists k, qs, p. split; [by left|done].
      * right. exists key, ps, p. split; [by right|done].
    + intros [H|(key & ps & p & Hin & Hp & Ha)].
      * left. by left.
      * apply elem_of_cons in Hin as [[= -> ->]|Hin].
        -- left. right. by exists p.
        -- right. by exists key, ps, p.
Qed.

Lemma collect_typing_spec cur state x :
  x ∈ collect_typing cur state
  <-> exists key ps p, (key, ps) ∈ state /\ p ∈ ps /\ isTyping p = true
                       /\ profileId p = x /\ Some x <> cur.
Proof.
  unfold collect_typing. rewrite collect_outer. split.
  - intros [H|(key & ps & p & Hin & Hp & Ha & E)]; [by apply not_elem_of_empty in H|].
    exists key, ps, p. unfold announces in Ha.
    apply andb_true_iff in Ha as [Ht Hn]. apply negb_true_iff, same_id_false in Hn.
    subst x. done.
  - intros (key & ps & p & Hin & Hp & Ht & E & Hn). right.
    exists key, ps, p. unfold announces. subst x.
    apply same_id_false in Hn. by rewrite Ht, Hn.
Qed.

(** C9. After a presence sync the typing set holds exactly the
    participant ids that some entry of the channel's latest snapshot
    reports as typing, the local user's own id left out. For the snapshot
    in which A is typing and B is not, viewed by B, the set is {A}. *)
Theorem typing_set_derivation :
  (forall cur st x,
     x ∈ typingUsers (final (onPresenceSync cur st))
     <-> exists key ps p,
           (key, ps) ∈ latest_snapshot st /\ p ∈ ps /\ isTyping p = true
           /\ profileId p = x /\ Some x <> cur)
  /\ typingUsers (final (onPresenceSync Sample.B Sample.viewed_by_B)) = {[ "A" ]}.
Proof.
  split.
  - intros cur st x. hook_unfold. cbn -[collect_typing]. apply collect_typing_spec.
  - apply set_eq. intros x.
    hook_unfold. cbn -[collect_typing]. rewrite collect_typing_spec, elem_of_singleton.
    split.
    + intros (key & ps & p & Hin & Hp & Ht & E & Hn).
      repeat (apply elem_of_cons in Hin as [[= -> ->]|Hin]);
        [| |by apply elem_of_nil in Hin].
      all: apply list_elem_of_singleton in Hp as ->; cbn in *; congruence.
    + intros ->. exists "A", [{| profileId := "A"; isTyping := true |}],
                 {| profileId := "A"; isTyping := true |}.
      repeat split; try done; [by left|by left].
Qed.

(** * Beyond the claims: further properties of the code *)

(** ** Runs of sends and of inbound events *)

Lemma filter_nontemp_id (l : list Message.t) :
  (forall m, m ∈ l -> is_temp m = false) ->
  List.filter (fun m => negb (is_temp m)) l = l.
Proof.
  intros H. apply filter_keeps_all. intros m Hm. by rewrite H.
Qed.

Lemma filter_temp_gone (l : list Message.t) :
  (forall m, m ∈ l -> is_temp m = true) ->
  List.filter (fun m => negb (is_temp m)) l = [].
Proof.
  induction l as [|a l IH]; intros H; simpl; [done|].
  rewrite H by left. simpl. apply IH. intros m Hm. apply H. by right.
Qed.

Lemma present_app i l1 l2 : present i (l1 ++ l2) <-> present i l1 \/ present i l2.
Proof.
  unfold present. split.
  - intros (m & [H|H]%elem_of_app & E); [left|right]; by exists m.
  - intros [(m & H & E)|(m & H & E)]; exists m; split; try done;
      apply elem_of_app; auto.
Qed.

Lemma present_ids i l : present i l <-> i ∈ ids_of l.
Proof.
  unfold present, ids_of. change (@List.map) with (@fmap list _).
  rewrite list_elem_of_fmap. split; intros (m & H1 & H2); exists m; done.
Qed.

Lemma deliver_all_messages cur sel es st :
  Forall (fun e => matches_pair cur sel e) es ->
  messages (deliver_all cur sel es st)
  = foldl (fun l e => reconcile e l) (messages st) es.
Proof.
  unfold deliver_all.
  revert st. induction es as [|e es IH]; intros st H; cbn [foldl]; [done|].
  apply Forall_cons in H as [He Hes].
  rewrite IH by done. rewrite onInsert_final.
  apply in_conversation_true in He. by rewrite He.
Qed.

Lemma reconcile_run_clean (l es : list Message.t) :
  (forall m, m ∈ l -> is_temp m = false) ->
  (forall e, e ∈ es -> is_temp e = false) ->
  NoDup (ids_of es) ->
  (forall e, e ∈ es -> ~ present (Message.id e) l) ->
  foldl (fun l e => reconcile e l) l es = l ++ es.
Proof.
  revert l. induction es as [|e es IH]; intros l Hl Hes Hnd Hfresh; cbn [foldl].
  - by rewrite app_nil_r.
  - cbn in Hnd. apply NoDup_cons in Hnd as [Hne Hnd].
    rewrite reconcile_absent by (apply Hfresh; left).
    rewrite filter_nontemp_id by done.
    rewrite IH.
    + by rewrite <- app_assoc.
    + intros m [Hm| ->%list_elem_of_singleton]%elem_of_app; [by apply Hl|].
      apply Hes. left.
    + intros x Hx. apply Hes. by right.
    + done.
    + intros x Hx [Hp|Hp]%present_app.
      * by apply (Hfresh x); [right|].
      * destruct Hp as (m & ->%list_elem_of_singleton & E).
        apply Hne. rewrite E. apply present_ids. by exists x.
Qed.

Lemma temp_id_is_temp w : Js.startsWith (temp_id w) "temp-" = true.
Proof.
  unfold temp_id, Js.startsWith. by destruct (pretty (id_now w)).
Qed.

Lemma sendMessage_accepted w cur sel arg st :
  falsy cur = false -> falsy sel = false ->
  proceeds w arg = true -> insert_error w = false ->
  exists p, placeholder_of (w, arg) p
            /\ matches_pair cur sel p
            /\ final (sendMessage w cur sel arg st)
               = with_uploading false (with_messages (messages st ++ [p]) st).
Proof.
  intros Hc Hs Hp Hi. unfold proceeds in Hp. hook_unfold.
  rewrite Hc, Hs, Hi.
  destruct (Js.truthy (Js.trim (arg_text arg))) eqn:Ht,
           (arg_file arg) as [f|] eqn:Hf, (upload_error w) eqn:Hu;
    try discriminate Hp; hook_run.
  all: eexists; split; [|split; [|reflexivity]].
  all: try (unfold placeholder_of, is_temp; cbn -[temp_id Js.trim];
            rewrite ?or_empty; repeat split; try done; apply temp_id_is_temp).
  all: left; cbn; by rewrite !str_truthy.
Qed.

(** X1. With an active pair, every send of a run that has something to
    send and whose insert the store accepts appends exactly one
    placeholder to the timeline, in order: a pending entry with a "temp-"
    identifier, not seen, carrying the trimmed text and the local clock
    reading, and belonging to the pair. Nothing else in the timeline
    changes. *)
Theorem sends_append_placeholders cur sel sends st :
  falsy cur = false -> falsy sel = false ->
  Forall (fun s => proceeds s.1 s.2 = true /\ insert_error s.1 = false) sends ->
  exists pendings,
    messages (send_all cur sel sends st) = messages st ++ pendings
    /\ Forall2 (fun s p => placeholder_of s p) sends pendings
    /\ Forall (fun p => matches_pair cur sel p) pendings.
Proof.
  intros Hc Hs. unfold send_all. revert st.
  induction sends as [|[w arg] sends IH]; intros st H; cbn [foldl fst snd].
  - exists []. by rewrite app_nil_r.
  - apply Forall_cons in H as [[Hp Hi] Hrest]. cbn in Hp, Hi.
    destruct (sendMessage_accepted w cur sel arg st Hc Hs Hp Hi) as (p & Hph & Hpair & ->).
    destruct (IH (with_uploading false (with_messages (messages st ++ [p]) st)) Hrest)
      as (ps & Hm & Hall & Hpairs).
    exists (p :: ps). split; [|split].
    + rewrite Hm. cbn. by rewrite <- app_assoc.
    + by constructor.
    + by constructor.
Qed.

Lemma sends_append_placeholders_witness :
  falsy Sample.A = false /\ falsy Sample.B = false
  /\ exists pendings,
       messages (send_all Sample.A Sample.B Scenario.two_sends Sample.has_read)
       = messages Sample.has_read ++ pendings
       /\ Forall2 (fun s p => placeholder_of s p) Scenario.two_sends pendings
       /\ Forall (fun p => matches_pair Sample.A Sample.B p) pendings.
Proof.
  split; [reflexivity|]. split; [reflexivity|].
  apply (sends_append_placeholders Sample.A Sample.B Scenario.two_sends Sample.has_read).
  - reflexivity.
  - reflexivity.
  - repeat constructor.
Defined.

(** X2. Once the echoes of all pending sends have been delivered, the
    timeline holds the earlier durable messages followed by the echoes,
    one entry per echo in delivery order, and no placeholder. This holds
    for a timeline made of durable entries followed by placeholders and
    for echoes that belong to the pair and carry distinct, new, durable
    identifiers. *)
Theorem echoes_replace_placeholders cur sel base pendings e es st :
  messages st = base ++ pendings ->
  (forall m, m ∈ base -> is_temp m = false) ->
  (forall p, p ∈ pendings -> is_temp p = true) ->
  Forall (fun x => matches_pair cur sel x) (e :: es) ->
  (forall x, x ∈ e :: es -> is_temp x = false) ->
  NoDup (ids_of (e :: es)) ->
  (forall x, x ∈ e :: es -> ~ present (Message.id x) base) ->
  messages (deliver_all cur sel (e :: es) st) = base ++ e :: es.
Proof.
  intros Hst Hbase Hpend Hpair Hnt Hnd Hfresh.
  rewrite deliver_all_messages by done. cbn [foldl].
  assert (~ present (Message.id e) (messages st)) as Habs.
  { rewrite Hst. intros [Hp|Hp]%present_app.
    - by apply (Hfresh e); [left|].
    - destruct Hp as (p & Hp & E).
      assert (is_temp e = true) as Ht.
      { unfold is_temp. rewrite <- E. by apply Hpend. }
      rewrite Hnt in Ht by left. discriminate. }
  rewrite reconcile_absent by done.
  rewrite Hst, List.filter_app, filter_nontemp_id, filter_temp_gone, app_nil_r by done.
  cbn in Hnd. apply NoDup_cons in Hnd as [Hne Hnd].
  rewrite reconcile_run_clean.
  - by rewrite <- app_assoc.
  - intros m [Hm| ->%list_elem_of_singleton]%elem_of_app; [by apply Hbase|].
    apply Hnt. left.
  - intros x Hx. apply Hnt. by right.
  - done.
  - intros x Hx [Hp|Hp]%present_app.
    + by apply (Hfresh x); [right|].
    + destruct Hp as (m & ->%list_elem_of_singleton & E).
      apply Hne. rewrite E. apply present_ids. by exists x.
Qed.

Lemma echoes_replace_placeholders_witness :
  messages (deliver_all Sample.A Sample.B [Sample.echo_one; Scenario.echo_two]
              Scenario.waiting)
  = [Sample.read_msg] ++ [Sample.echo_one; Scenario.echo_two].
Proof.
  apply (echoes_replace_placeholders Sample.A Sample.B [Sample.read_msg]
           [Sample.msg "temp-1" "A" "B" "one" 1; Sample.msg "temp-2" "A" "B" "two" 2]).
  - reflexivity.
  - intros m ->%list_elem_of_singleton. reflexivity.
  - intros p Hp. apply elem_of_cons in Hp as [->|Hp]; [reflexivity|].
    apply list_elem_of_singleton in Hp as ->. reflexivity.
  - repeat constructor; apply in_conversation_true; reflexivity.
  - intros x Hx. apply elem_of_cons in Hx as [->|Hx]; [reflexivity|].
    apply list_elem_of_singleton in Hx as ->. reflexivity.
  - apply (bool_decide_unpack _). reflexivity.
  - intros x Hx H%existsb_present.
    apply elem_of_cons in Hx as [->|Hx]; [discriminate H|].
    apply list_elem_of_singleton in Hx as ->. discriminate H.
Defined.

Lemma NoDup_ids_filter (f : Message.t -> bool) l :
  NoDup (ids_of l) -> NoDup (ids_of (List.filter f l)).
Proof.
  unfold ids_of. induction l as [|a l IH]; simpl; [done|].
  intros [Ha Hl]%NoDup_cons. destruct (f a); simpl; [|by apply IH].
  apply NoDup_cons. split; [|by apply IH].
  intros Hin. apply Ha. change (@List.map) with (@fmap list _) in *.
  apply list_elem_of_fmap in Hin as (m & E & Hm). apply list_elem_of_fmap.
  exists m. split; [done|]. apply list_elem_of_In in Hm.
  apply filter_In in Hm as [Hm _]. by apply list_elem_of_In.
Qed.

Lemma NoDup_ids_snoc l m :
  NoDup (ids_of l) -> ~ present (Message.id m) l -> NoDup (ids_of (l ++ [m])).
Proof.
  intros Hl Hm. unfold ids_of. rewrite List.map_app. cbn.
  apply NoDup_app. split; [done|]. split; [|apply NoDup_singleton].
  intros x Hx ->%list_elem_of_singleton. by apply Hm, present_ids.
Qed.

Lemma reconcile_NoDup newMsg l :
  NoDup (ids_of l) -> NoDup (ids_of (reconcile newMsg l)).
Proof.
  intros H. unfold reconcile. destruct (existsb _ l) eqn:E; [done|].
  apply NoDup_ids_snoc; [by apply NoDup_ids_filter|].
  intros (m & Hm & Eid). 
  assert (present (Message.id newMsg) l) as Hp.
  { exists m. split; [|done]. apply list_elem_of_In in Hm.
    apply filter_In in Hm as [Hm _]. by apply list_elem_of_In. }
  apply existsb_present in Hp. congruence.
Qed.

(** X3. A timeline in which no identifier occurs twice stays so: under
    the handling of any inbound event, under any run of inbound events,
    and under any send whose freshly minted pending identifier is not
    already in the timeline. *)
Theorem identifiers_stay_unique cur sel st :
  NoDup (ids_of (messages st)) ->
  (forall newMsg, NoDup (ids_of (messages (final (onInsert cur sel newMsg st)))))
  /\ (forall events, NoDup (ids_of (messages (deliver_all cur sel events st))))
  /\ (forall w arg,
        ~ present (temp_id w) (messages st) ->
        NoDup (ids_of (messages (final (sendMessage w cur sel arg st))))).
Proof.
  intros H. split; [|split].
  - intros newMsg. rewrite onInsert_final.
    destruct (in_conversation cur sel newMsg); [|done]. cbn. by apply reconcile_NoDup.
  - intros events. unfold deliver_all. revert st H.
    induction events as [|e es IH]; intros st H; cbn [foldl]; [done|].
    apply IH. rewrite onInsert_final.
    destruct (in_conversation cur sel e); [|done]. cbn. by apply reconcile_NoDup.
  - intros w arg Hfresh.
    destruct (sendMessage_messages w cur sel arg st) as [-> | [(p & Hid & Hs & ->) | ->]].
    + done.
    + apply NoDup_ids_snoc; [done|]. by rewrite Hid.
    + by apply NoDup_ids_filter.
Qed.

Lemma identifiers_stay_unique_witness :
  NoDup (ids_of (messages Scenario.waiting))
  /\ NoDup (ids_of (messages (deliver_all Sample.A Sample.B
                                [Sample.echo_one; Sample.echo_one; Scenario.echo_two]
                                Scenario.waiting)))
  /\ ~ present (temp_id (Scenario.world 3)) (messages Scenario.waiting)
  /\ NoDup (ids_of (messages (final (sendMessage (Scenario.world 3) Sample.A Sample.B
                                       (ArgText "three") Scenario.waiting)))).
Proof.
  assert (NoDup (ids_of (messages Scenario.waiting))) as H
    by (apply (bool_decide_unpack _); reflexivity).
  assert (~ present (temp_id (Scenario.world 3)) (messages Scenario.waiting)) as F
    by (intros P%existsb_present; discriminate P).
  destruct (identifiers_stay_unique Sample.A Sample.B Scenario.waiting H) as (_ & H2 & H3).
  split; [exact H|]. split; [apply H2|]. split; [exact F|]. by apply H3.
Defined.





(** ** The queries on the store *)

Lemma unseen_after_marking from to m :
  Store.unseen_from from to
    (if Store.unseen_from from to m then Message.with_seen true m else m) = false.
Proof.
  destruct (Store.unseen_from from to m) eqn:E; [|done].
  unfold Store.unseen_from in *. cbn.
  by rewrite andb_false_r.
Qed.

(** X5. The bulk update of seen-marking leaves no message from the
    given sender to the given receiver unseen; running it again changes
    nothing; it keeps every row's identifier and position; and a row of
    any other sender or receiver stays exactly as it was. *)
Theorem marking_seen_is_complete from to rows :
  let rows' := Store.update_seen from to rows in
  (forall m, m ∈ rows' ->
     Message.sender_id m = from -> Message.receiver_id m = to ->
     Message.seen m = true)
  /\ Store.update_seen from to rows' = rows'
  /\ ids_of rows' = ids_of rows
  /\ (forall m, m ∈ rows ->
        Message.sender_id m <> from \/ Message.receiver_id m <> to -> m ∈ rows').
Proof.
  intros rows'. subst rows'. unfold Store.update_seen. split; [|split; [|split]].
  - intros m Hm Hs Hr. apply list_elem_of_In, in_map_iff in Hm as (m0 & <- & _).
    pose proof (unseen_after_marking from to m0) as H.
    remember (if Store.unseen_from from to m0 then Message.with_seen true m0 else m0)
      as m eqn:Em.
    unfold Store.unseen_from in H. rewrite Hs, Hr, !String.eqb_refl in H. cbn in H.
    destruct (Message.seen m); [done|discriminate].
  - rewrite List.map_map. apply List.map_ext. intros m.
    by rewrite unseen_after_marking.
  - unfold ids_of. rewrite List.map_map. apply List.map_ext. intros m.
    by destruct (Store.unseen_from from to m).
  - intros m Hm Hne. apply list_elem_of_In, in_map_iff. exists m.
    split; [|by apply list_elem_of_In].
    unfold Store.unseen_from.
    destruct Hne as [H|H].
    + destruct (String.eqb_spec (Message.sender_id m) from); [done|]. done.
    + destruct (String.eqb_spec (Message.receiver_id m) to); [done|].
      by rewrite andb_false_r.
Qed.

Lemma marking_seen_is_complete_witness :
  let rows := [Sample.read_msg; Sample.from_peer; Sample.echo_one] in
  let rows' := Store.update_seen "B" "A" rows in
  Sample.from_peer ∈ rows /\ Message.seen Sample.from_peer = false
  /\ Message.with_seen true Sample.from_peer ∈ rows'
  /\ Message.seen (Message.with_seen true Sample.from_peer) = true
  /\ Sample.echo_one ∈ rows'.
Proof.
  cbv zeta.
  destruct (marking_seen_is_complete "B" "A"
              [Sample.read_msg; Sample.from_peer; Sample.echo_one]) as (H1 & _ & _ & H4).
  assert (Message.with_seen true Sample.from_peer
            ∈ Store.update_seen "B" "A" [Sample.read_msg; Sample.from_peer; Sample.echo_one])
    as Hin by (right; left).
  split; [right; left|]. split; [reflexivity|]. split; [exact Hin|].
  split; [exact (H1 _ Hin eq_refl eq_refl)|].
  apply H4; [right; right; left|]. left. discriminate.
Defined.

Lemma between_sym me peer m : Store.between me peer m = Store.between peer me m.
Proof.
  unfold Store.between.
  destruct (Message.sender_id m =? me)%string, (Message.receiver_id m =? peer)%string,
    (Message.sender_id m =? peer)%string, (Message.receiver_id m =? me)%string; done.
Qed.

(** X6. The history query returns, for either participant, the same
    messages: the two results are permutations of each other, each is
    ordered ascending by creation time, and each has one entry for every
    stored message between the two users, no more and no fewer. *)
Theorem history_is_shared db me peer :
  Store.select_history db me peer ≡ₚ Store.select_history db peer me
  /\ StronglySorted Store.created_le (Store.select_history db me peer)
  /\ StronglySorted Store.created_le (Store.select_history db peer me)
  /\ ids_of (Store.select_history db me peer)
     ≡ₚ ids_of (List.filter (Store.between me peer) (Store.messages_tbl db)).
Proof.
  split; [|split; [|split]].
  - unfold Store.select_history. rewrite !merge_sort_Permutation.
    rewrite (List.filter_ext _ _ (between_sym me peer)). done.
  - apply select_history_sorted.
  - apply select_history_sorted.
  - unfold Store.select_history, ids_of.
    rewrite merge_sort_Permutation, List.map_map. done.
Qed.

(** ** Channel names and upload keys *)

Lemma ltb_asym a b : String.ltb a b = true -> String.ltb b a = false.
Proof.
  unfold String.ltb. rewrite (String.compare_antisym a b).
  destruct (String.compare b a); cbn; done.
Qed.

Lemma ltb_connex a b : String.ltb a b = false -> String.ltb b a = false -> a = b.
Proof.
  unfold String.ltb. rewrite (String.compare_antisym a b).
  destruct (String.compare b a) eqn:E; cbn; try done.
  intros _ _. symmetry. by apply String.compare_eq_iff.
Qed.

Lemma sort_pair_sym a b : sort_pair a b = sort_pair b a.
Proof.
  unfold sort_pair.
  destruct (String.ltb b a) eqn:E1, (String.ltb a b) eqn:E2; try done.
  - apply ltb_asym in E1. congruence.
  - by rewrite (ltb_connex a b).
Qed.

Lemma split_at_sep c a b a' b' :
  contains c a = false -> contains c a' = false ->
  a +:+ String c b = a' +:+ String c b' -> a = a' /\ b = b'.
Proof.
  revert a'. induction a as [|d a IH]; intros [|d' a']; cbn [contains].
  - intros _ _ E. by injection E as ->.
  - intros _ [H _]%orb_false_iff E. rewrite append_cons in E.
    injection E as <- _. by rewrite Ascii.eqb_refl in H.
  - intros [H _]%orb_false_iff _ E. rewrite append_cons in E.
    injection E as -> _. by rewrite Ascii.eqb_refl in H.
  - intros [_ H]%orb_false_iff [_ H']%orb_false_iff E.
    rewrite !append_cons in E. injection E as -> E.
    destruct (IH a' H H' E) as [-> ->]. done.
Qed.

Lemma append_inj_l (p a b : string) : p +:+ a = p +:+ b -> a = b.
Proof.
  induction p as [|d p IH]; [done|]. rewrite !append_cons. intros [= E]. by apply IH.
Qed.

(** X7. Both participants of a conversation compute the same name for
    the typing channel, whoever is the local user; and when identifiers
    contain no colon, two pairs share a typing channel only if they are
    the same pair, in one order or the other. *)
Theorem typing_topic_is_shared cur sel :
  typing_topic cur sel = typing_topic sel cur
  /\ (forall cur' sel',
        contains ":" (str cur) = false -> contains ":" (str sel) = false ->
        contains ":" (str cur') = false -> contains ":" (str sel') = false ->
        typing_topic cur sel = typing_topic cur' sel' ->
        (str cur = str cur' /\ str sel = str sel')
        \/ (str cur = str sel' /\ str sel = str cur')).
Proof.
  split.
  - unfold typing_topic. by rewrite sort_pair_sym.
  - intros cur' sel' H1 H2 H3 H4. unfold typing_topic, sort_pair.
    intros E%append_inj_l. revert E.
    destruct (String.ltb (str sel) (str cur)), (String.ltb (str sel') (str cur'));
      cbn [join_with]; intros E; change (":" +:+ ?x) with (String ":" x) in E;
      apply split_at_sep in E as [-> ->]; auto.
Qed.

Lemma typing_topic_is_shared_witness :
  typing_topic Sample.A Sample.B = "typing:A:B"
  /\ typing_topic Sample.B Sample.A = "typing:A:B"
  /\ (typing_topic Sample.A Sample.B = typing_topic Sample.B Sample.A ->
      (str Sample.A = str Sample.B /\ str Sample.B = str Sample.A)
      \/ (str Sample.A = str Sample.A /\ str Sample.B = str Sample.B)).
Proof.
  split; [reflexivity|]. split; [reflexivity|].
  apply (proj2 (typing_topic_is_shared Sample.A Sample.B) Sample.B Sample.A);
    reflexivity.
Defined.

Lemma has_dot_contains s : Js.has_dot s = contains "." s.
Proof. induction s as [|d s IH]; [done|]. cbn. by rewrite IH. Qed.

Lemma last_segment_no_dot s : contains "." (Js.last_segment s) = false.
Proof.
  induction s as [|d s IH]; [done|]. cbn [Js.last_segment].
  destruct (Js.has_dot s) eqn:E; [done|].
  destruct (Ascii.eqb d ".") eqn:Ed.
  - by rewrite <- has_dot_contains.
  - cbn. by rewrite Ed, <- has_dot_contains.
Qed.

Lemma last_segment_whole s : contains "." s = false -> Js.last_segment s = s.
Proof.
  destruct s as [|d s]; [done|]. cbn. intros [H1 H2]%orb_false_iff.
  by rewrite has_dot_contains, H2, H1.
Qed.

Lemma last_segment_split s :
  contains "." s = true -> exists stem, s = stem +:+ "." +:+ Js.last_segment s.
Proof.
  induction s as [|d s IH]; [done|]. cbn [contains Js.last_segment].
  rewrite has_dot_contains. destruct (contains "." s) eqn:E.
  - intros _. destruct (IH eq_refl) as [stem Hs]. exists (String d stem).
    rewrite append_cons. by f_equal.
  - rewrite orb_false_r. intros Hd. rewrite Hd. apply Ascii.eqb_eq in Hd as ->.
    by exists "".
Qed.

Lemma pretty_N_go_plain c x s :
  (forall d, pretty_N_char d <> c) ->
  contains c s = false -> contains c (pretty_N_go x s) = false.
Proof.
  intros Hc. revert s. induction (N.lt_wf_0 x) as [x _ IH]; intros s Hs.
  assert (x = 0 \/ 0 < x)%N as [->|Hx] by lia.
  - by rewrite pretty_N_go_0.
  - rewrite pretty_N_go_step by done. apply IH.
    + by apply N.div_lt.
    + cbn [contains]. rewrite Hs, orb_false_r. apply Ascii.eqb_neq, Hc.
Qed.

Lemma pretty_Z_plain c (z : Z) :
  (forall d, pretty_N_char d <> c) -> c <> "-"%char ->
  contains c (pretty z) = false.
Proof.
  intros Hc Hd.
  assert (forall n : N, contains c (pretty n) = false) as HN.
  { intros n. unfold pretty, pretty_N. case_decide.
    - change "0" with (String (pretty_N_char 0) ""). cbn [contains].
      rewrite orb_false_r. apply Ascii.eqb_neq. apply (Hc 0%N).
    - by apply pretty_N_go_plain. }
  destruct z as [|p|p].
  - apply (HN 0%N).
  - apply (HN (Npos p)).
  - change (pretty (Z.neg p)) with (String "-" (pretty (Npos p))). cbn [contains].
    rewrite (HN (Npos p)), orb_false_r. apply Ascii.eqb_neq. congruence.
Qed.

Lemma digits_no_dot d : pretty_N_char d <> "."%char.
Proof. unfold pretty_N_char. by repeat case_match. Qed.

Lemma uploadFile_run w cur f st :
  falsy cur = false ->
  uploadFile w cur f st
  = (if upload_error w then None
     else Some {| url := publicUrl w (fileName_of w cur f);
                  name := file_name_of f; type := file_type_of f |},
     st,
     StorageUpload "chat-attachments" (fileName_of w cur f) f
     :: if upload_error w then [ConsoleError "Error uploading file:"] else []).
Proof.
  intros Hc. hook_unfold. rewrite Hc. by destruct (upload_error w).
Qed.

(** X8. An upload writes to the key made of the owner's id, a slash,
    the clock reading, a dot and the extension of the file name; the
    extension is what follows the last dot of the name (the whole name
    when it has no dot) and never contains a dot. With identifiers free
    of slashes, two uploads write to the same key exactly when they have
    the same owner, the same clock reading and the same extension. *)
Theorem upload_key_collisions w cur f st :
  let ext := Js.last_segment (file_name_of f) in
  (falsy cur = false ->
   exists rest,
     trace (uploadFile w cur f st)
     = StorageUpload "chat-attachments"
         (str cur +:+ "/" +:+ pretty (upload_now w) +:+ "." +:+ ext) f :: rest)
  /\ contains "." ext = false
  /\ (contains "." (file_name_of f) = false -> ext = file_name_of f)
  /\ (contains "." (file_name_of f) = true ->
      exists stem, file_name_of f = stem +:+ "." +:+ ext)
  /\ (forall w' cur' f',
        contains "/" (str cur) = false -> contains "/" (str cur') = false ->
        (fileName_of w cur f = fileName_of w' cur' f'
         <-> str cur = str cur' /\ upload_now w = upload_now w'
             /\ ext = Js.last_segment (file_name_of f'))).
Proof.
  intros ext. subst ext.
  split; [intros Hc; rewrite uploadFile_run by done; by eexists|].
  split; [apply last_segment_no_dot|].
  split; [apply last_segment_whole|]. split; [apply last_segment_split|].
  intros w' cur' f' H1 H2. unfold fileName_of. split.
  - change ("/" +:+ ?x) with (String "/" x).
    intros E. apply split_at_sep in E as [Hc E]; [|done..].
    change ("." +:+ ?x) with (String "." x) in E.
    apply split_at_sep in E as [Hn He].
    + apply (inj pretty) in Hn. done.
    + apply pretty_Z_plain; [apply digits_no_dot|done].
    + apply pretty_Z_plain; [apply digits_no_dot|done].
  - intros (-> & -> & ->). done.
Qed.

Lemma upload_key_collisions_witness :
  falsy Sample.A = false
  /\ contains "." (file_name_of Sample.photo) = true
  /\ (exists rest,
        trace (uploadFile Sample.online Sample.A Sample.photo Sample.idle)
        = StorageUpload "chat-attachments" "A/7.png" Sample.photo :: rest)
  /\ (exists stem, "cat.final.png" = stem +:+ "." +:+ "png")
  /\ fileName_of Sample.online Sample.A Sample.photo
     = fileName_of Sample.offline Sample.A
         {| file_name_of := "dog.png"; file_type_of := "image/png" |}.
Proof.
  destruct (upload_key_collisions Sample.online Sample.A Sample.photo Sample.idle)
    as (H1 & _ & _ & H4 & H5).
  split; [reflexivity|]. split; [reflexivity|].
  split; [exact (H1 eq_refl)|]. split; [exact (H4 eq_refl)|].
  apply H5; [reflexivity|reflexivity|]. repeat split.
Defined.

(** ** Who is typing, seen from both sides *)

Lemma onPresenceSync_typing cur st :
  typingUsers (final (onPresenceSync cur st)) = collect_typing cur (latest_snapshot st).
Proof. reflexivity. Qed.

(** X9. In a typing channel on which only the two participants
    announce, the typing set of the local user is empty or holds the peer
    alone: the local user never appears in it, and the peer appears
    exactly when one of the peer's entries says "typing". What
    [sendTypingIndicator] announces always carries the local user's own
    id and the given flag, and needs a joined channel. *)
Theorem typing_shows_only_the_peer cur sel st :
  falsy cur = false ->
  (forall key ps p, (key, ps) ∈ latest_snapshot st -> p ∈ ps ->
     profileId p = str cur \/ profileId p = str sel) ->
  let typing := typingUsers (final (onPresenceSync cur st)) in
  typing ⊆ {[ str sel ]}
  /\ (str cur ∉ typing)
  /\ (str sel ∈ typing
      <-> str sel <> str cur
          /\ exists key ps p, (key, ps) ∈ latest_snapshot st /\ p ∈ ps
                              /\ profileId p = str sel /\ isTyping p = true)
  /\ (forall flag st' p,
        sendTypingIndicator cur flag st' = Some p ->
        profileId p = str cur /\ isTyping p = flag
        /\ is_Some (typingChannelRef st')).
Proof.
  intros Hc Hall typing. subst typing. rewrite onPresenceSync_typing.
  split; [|split; [|split]].
  - intros x (key & ps & p & Hin & Hp & Ht & E & Hn)%collect_typing_spec.
    apply elem_of_singleton. destruct (Hall key ps p Hin Hp) as [H|H]; [|congruence].
    exfalso. apply Hn. rewrite <- E, H. by apply str_truthy.
  - intros (key & ps & p & Hin & Hp & Ht & E & Hn)%collect_typing_spec.
    apply Hn. by apply str_truthy.
  - rewrite collect_typing_spec. split.
    + intros (key & ps & p & Hin & Hp & Ht & E & Hn). split.
      * intros E'. apply Hn. rewrite E'. by apply str_truthy.
      * by exists key, ps, p.
    + intros (Hne & key & ps & p & Hin & Hp & E & Ht).
      exists key, ps, p. repeat split; try done.
      intros E'. apply Hne. rewrite <- (str_truthy cur Hc) in E'. by injection E'.
  - intros flag st' p. unfold sendTypingIndicator. rewrite Hc. cbn.
    case_bool_decide; cbn; [|done]. by intros [= <-].
Qed.

Lemma typing_shows_only_the_peer_witness :
  falsy Sample.A = false
  /\ (let typing := typingUsers (final (onPresenceSync Sample.A Sample.viewed_by_B)) in
      typing ⊆ {[ "B" ]} /\ "A" ∉ typing)
  /\ (let typing := typingUsers (final (onPresenceSync Sample.B Sample.viewed_by_B)) in
      typing ⊆ {[ "A" ]} /\ "B" ∉ typing)
  /\ sendTypingIndicator Sample.A true Sample.viewed_by_B
     = Some {| profileId := "A"; isTyping := true |}.
Proof.
  assert (forall key ps p, (key, ps) ∈ latest_snapshot Sample.viewed_by_B -> p ∈ ps ->
            profileId p = "A" \/ profileId p = "B") as Hall.
  { intros key ps p Hin Hp. cbn in Hin.
    repeat (apply elem_of_cons in Hin as [[= -> ->]|Hin]);
      [| |by apply elem_of_nil in Hin].
    all: apply list_elem_of_singleton in Hp as ->; auto. }
  split; [reflexivity|]. split; [|split; [|reflexivity]].
  - destruct (typing_shows_only_the_peer Sample.A Sample.B Sample.viewed_by_B eq_refl Hall)
      as (H1 & H2 & _). by split.
  - destruct (typing_shows_only_the_peer Sample.B Sample.A Sample.viewed_by_B eq_refl)
      as (H1 & H2 & _); [|by split].
    intros key ps p Hin Hp. destruct (Hall key ps p Hin Hp); auto.
Defined.

(** ** The directory of peers *)

Lemma patch_ids updated prev :
  List.map Profile.id (Users.patch updated prev) = List.map Profile.id prev.
Proof.
  unfold Users.patch. rewrite List.map_map. apply List.map_ext. intros u.
  destruct (String.eqb_spec (Profile.id u) (Profile.id updated)); done.
Qed.

Lemma patch_absent updated prev :
  Profile.id updated ∉ List.map Profile.id prev -> Users.patch updated prev = prev.
Proof.
  unfold Users.patch. induction prev as [|u prev IH]; cbn; [done|].
  intros [H1 H2]%not_elem_of_cons.
  destruct (String.eqb_spec (Profile.id u) (Profile.id updated)); [congruence|].
  f_equal. by apply IH.
Qed.

Lemma patch_twice updated prev :
  Users.patch updated (Users.patch updated prev) = Users.patch updated prev.
Proof.
  unfold Users.patch. rewrite List.map_map. apply List.map_ext. intros u.
  destruct (String.eqb_spec (Profile.id u) (Profile.id updated)) as [E|E].
  - by rewrite String.eqb_refl.
  - by destruct (String.eqb_spec (Profile.id u) (Profile.id updated)).
Qed.

Lemma find_patch updated prev i :
  find_profile i (Users.patch updated prev)
  = match find_profile i prev with
    | Some u => Some (if String.eqb i (Profile.id updated) then updated else u)
    | None => None
    end.
Proof.
  unfold find_profile, Users.patch. induction prev as [|u prev IH]; cbn; [done|].
  destruct (String.eqb_spec (Profile.id u) (Profile.id updated)) as [E|E].
  - destruct (String.eqb_spec (Profile.id updated) i) as [E'|E'];
      destruct (String.eqb_spec (Profile.id u) i) as [E''|E'']; try congruence.
    all: first [ exact IH | subst i; by rewrite String.eqb_refl ].
  - destruct (String.eqb_spec (Profile.id u) i) as [E'|E']; [|exact IH].
    subst i. by destruct (String.eqb_spec (Profile.id u) (Profile.id updated)).
Qed.

(** X10. A profile update patches the directory in place: the list
    keeps its length, order and identifiers; the entry with the updated
    id, if there is one, becomes the updated profile and every other
    entry is untouched; an update for an id that is not listed changes
    nothing; applying the same update again changes nothing; and the
    page's lookup of the selected peer then yields the updated profile. *)
Theorem profile_update_patches_in_place updated st :
  let st' := (Users.onProfileUpdate updated st).1 in
  List.map Profile.id (Users.users st') = List.map Profile.id (Users.users st)
  /\ Users.loading st' = Users.loading st
  /\ (forall (i : nat) u, Users.users st !! i = Some u ->
        Users.users st' !! i
        = Some (if String.eqb (Profile.id u) (Profile.id updated) then updated else u))
  /\ (Profile.id updated ∉ List.map Profile.id (Users.users st) -> st' = st)
  /\ (Users.onProfileUpdate updated st').1 = st'
  /\ (forall selected prev,
        falsy selected = false ->
        ChatPage.selectedUser_effect (Users.users st') selected prev
        = match ChatPage.selectedUser_effect (Users.users st) selected prev with
          | Some u => Some (if String.eqb (str selected) (Profile.id updated)
                            then updated else u)
          | None => None
          end).
Proof.
  intros st'. subst st'. cbn -[Users.patch]. split; [apply patch_ids|]. split; [done|].
  split; [|split; [|split]].
  - intros i u H. unfold Users.patch. change (@List.map) with (@fmap list _).
    by rewrite list_lookup_fmap, H.
  - intros H. rewrite patch_absent by done. by destruct st.
  - by rewrite patch_twice.
  - intros selected prev Hs. unfold ChatPage.selectedUser_effect. rewrite Hs.
    apply find_patch.
Qed.

Lemma profile_update_patches_in_place_witness :
  let st' := (Users.onProfileUpdate Scenario.bob_online Scenario.directory).1 in
  Users.users Scenario.directory !! 0%nat = Some Scenario.bob
  /\ Users.users st' !! 0%nat = Some Scenario.bob_online
  /\ Users.users st' !! 1%nat = Some Scenario.carol
  /\ ChatPage.selectedUser_effect (Users.users st') Sample.B None
     = Some Scenario.bob_online
  /\ (Users.onProfileUpdate Scenario.alice Scenario.directory).1 = Scenario.directory.
Proof.
  cbv zeta.
  destruct (profile_update_patches_in_place Scenario.bob_online Scenario.directory)
    as (_ & _ & H3 & _ & _ & H6).
  destruct (profile_update_patches_in_place Scenario.alice Scenario.directory)
    as (_ & _ & _ & H4 & _).
  split; [reflexivity|]. split; [exact (H3 0%nat Scenario.bob eq_refl)|].
  split; [exact (H3 1%nat Scenario.carol eq_refl)|].
  split; [exact (H6 Sample.B None eq_refl)|].
  apply H4. intros H. cbn in H.
  repeat (apply elem_of_cons in H as [H|H]; [discriminate H|]).
  by apply elem_of_nil in H.
Defined.

Lemma set_add_elem x y s : x ∈ Users.set_add y s <-> x ∈ s \/ x = y.
Proof.
  unfold Users.set_add. case_bool_decide as H.
  - split; [by left|]. intros [?| ->]; done.
  - rewrite elem_of_app, list_elem_of_singleton. done.
Qed.

Lemma set_add_NoDup y s : NoDup s -> NoDup (Users.set_add y s).
Proof.
  intros H. unfold Users.set_add. case_bool_decide as Hy; [done|].
  apply NoDup_app. split; [done|]. split; [|apply NoDup_singleton].
  by intros x Hx ->%list_elem_of_singleton.
Qed.

Lemma add_all_elem x rows s :
  x ∈ Users.add_all rows s <-> x ∈ s \/ x ∈ default [] rows.
Proof.
  unfold Users.add_all. generalize (default [] rows). intros l. revert s.
  induction l as [|y l IH]; intros s; cbn [foldl].
  - split; [by left|]. intros [?|H]; [done|]. by apply elem_of_nil in H.
  - rewrite IH, set_add_elem, elem_of_cons. tauto.
Qed.

Lemma add_all_NoDup rows s : NoDup s -> NoDup (Users.add_all rows s).
Proof.
  unfold Users.add_all. generalize (default [] rows). intros l. revert s.
  induction l as [|y l IH]; intros s H; cbn [foldl]; [done|].
  by apply IH, set_add_NoDup.
Qed.

Lemma receivers_of_elem db pid x :
  x ∈ Users.receivers_of db pid
  <-> exists m, m ∈ Store.messages_tbl db /\ Message.sender_id m = pid
               /\ Message.receiver_id m = x.
Proof.
  unfold Users.receivers_of. rewrite list_elem_of_In, in_map_iff.
  split; intros (m & H1 & H2); exists m.
  - apply filter_In in H2 as [H2 H3]. apply String.eqb_eq in H3.
    by rewrite list_elem_of_In.
  - destruct H2 as [H2 H3]. split; [done|]. apply filter_In.
    rewrite <- list_elem_of_In. split; [done|]. by apply String.eqb_eq.
Qed.

Lemma senders_to_elem db pid x :
  x ∈ Users.senders_to db pid
  <-> exists m, m ∈ Store.messages_tbl db /\ Message.receiver_id m = pid
               /\ Message.sender_id m = x.
Proof.
  unfold Users.senders_to. rewrite list_elem_of_In, in_map_iff.
  split; intros (m & H1 & H2); exists m.
  - apply filter_In in H2 as [H2 H3]. apply String.eqb_eq in H3.
    by rewrite list_elem_of_In.
  - destruct H2 as [H2 H3]. split; [done|]. apply filter_In.
    rewrite <- list_elem_of_In. split; [done|]. by apply String.eqb_eq.
Qed.

Lemma profiles_in_elem db ids p :
  p ∈ Users.profiles_in db ids <-> p ∈ Store.profiles_tbl db /\ Profile.id p ∈ ids.
Proof.
  unfold Users.profiles_in. rewrite list_elem_of_In, filter_In, existsb_exists.
  split.
  - intros (H & x & Hx & E). apply String.eqb_eq in E. subst x.
    split; by apply list_elem_of_In.
  - intros (H & Hid). split; [by apply list_elem_of_In|]. exists (Profile.id p).
    split; [by apply list_elem_of_In|]. apply String.eqb_refl.
Qed.

Lemma length_zero_nil {A} (l : list A) : (length l =? 0)%nat = true <-> l = [].
Proof. destruct l; cbn; split; done. Qed.

(** X11. [getRecentConversations] for a profile: when the two message
    queries yield no peer (no history, or both queries failed, which the
    code does not tell apart) the directory becomes empty, loading is
    cleared and no profile query is made; the profile query, when made,
    asks for a non-empty list of distinct ids, exactly the ids the two
    queries returned; and answered by the store, the directory holds
    exactly the stored profiles of the users who sent a message to the
    profile or received one from it. *)
Theorem recent_conversations_directory profileId st :
  Js.truthy profileId = true ->
  (forall sent received resp,
     Users.add_all received (Users.add_all sent []) = [] ->
     Users.getRecentConversations sent received resp profileId st
     = ({| Users.users := []; Users.loading := false |},
        [Users.SetLoading true; Users.SelectReceivers profileId;
         Users.SelectSenders profileId; Users.SetUsers []; Users.SetLoading false]))
  /\ (forall resp,
       Users.getRecentConversations None None resp profileId st
       = Users.getRecentConversations (Some []) (Some []) resp profileId st)
  /\ (forall sent received resp ids,
       Users.SelectProfilesIn ids
         ∈ (Users.getRecentConversations sent received resp profileId st).2 ->
       ids <> [] /\ NoDup ids
       /\ forall x, x ∈ ids <-> x ∈ default [] sent \/ x ∈ default [] received)
  /\ (forall db,
       let sent := Some (Users.receivers_of db profileId) in
       let received := Some (Users.senders_to db profileId) in
       let ids := Users.add_all received (Users.add_all sent []) in
       let resp := {| Users.data := Some (Users.profiles_in db ids);
                      Users.error := None |} in
       let st' := (Users.getRecentConversations sent received resp profileId st).1 in
       Users.loading st' = false
       /\ forall p, p ∈ Users.users st'
            <-> p ∈ Store.profiles_tbl db /\ talked_with db profileId (Profile.id p)).
Proof.
  intros Hp. unfold Users.getRecentConversations. rewrite Hp. cbn [negb].
  split; [|split; [|split]].
  - intros sent received resp ->. reflexivity.
  - intros resp. reflexivity.
  - intros sent received resp ids.
    destruct (length _ =? 0)%nat eqn:E.
    + cbn. intros H. rewrite !elem_of_cons, elem_of_nil in H.
      repeat (destruct H as [H|H]; try discriminate H); done.
    + assert (Users.add_all received (Users.add_all sent []) <> []) as Hne.
      { intros H. apply length_zero_nil in H. congruence. }
      destruct (Users.error resp), (Users.data resp); cbn.
      all: intros H; rewrite !elem_of_cons, elem_of_nil in H.
      all: repeat (destruct H as [H|H]; try discriminate H); try done.
      all: injection H as ->; split; [done|]; split;
        [apply add_all_NoDup, add_all_NoDup, NoDup_nil_2|].
      all: intros x; rewrite !add_all_elem, elem_of_nil; tauto.
  - intros db. cbv zeta.
    set (ids := Users.add_all (Some (Users.senders_to db profileId))
                  (Users.add_all (Some (Users.receivers_of db profileId)) [])).
    assert (forall x, x ∈ ids <-> talked_with db profileId x) as Hids.
    { intros x. subst ids. rewrite !add_all_elem, elem_of_nil. cbn.
      rewrite receivers_of_elem, senders_to_elem. unfold talked_with. split.
      - intros [[[]|(m & H1 & H2 & H3)]|(m & H1 & H2 & H3)]; exists m; tauto.
      - intros (m & H1 & [[H2 H3]|[H2 H3]]); [left; right|right]; by exists m. }
    clearbody ids.
    destruct (length ids =? 0)%nat eqn:E.
    + apply length_zero_nil in E. cbn. split; [done|]. intros p.
      rewrite elem_of_nil. split; [done|]. intros [_ H%Hids]. rewrite E in H.
      by apply elem_of_nil in H.
    + cbn. split; [done|]. intros p.
      rewrite profiles_in_elem, Hids. done.
Qed.

Lemma recent_conversations_directory_witness :
  Js.truthy "A" = true
  /\ (let sent := Some (Users.receivers_of Scenario.db "A") in
      let received := Some (Users.senders_to Scenario.db "A") in
      let ids := Users.add_all received (Users.add_all sent []) in
      let resp := {| Users.data := Some (Users.profiles_in Scenario.db ids);
                     Users.error := None |} in
      let st' := (Users.getRecentConversations sent received resp "A"
                    Scenario.directory).1 in
      Users.loading st' = false
      /\ forall p, p ∈ Users.users st'
           <-> p ∈ Store.profiles_tbl Scenario.db /\ talked_with Scenario.db "A" (Profile.id p))
  /\ Users.getRecentConversations None None
       {| Users.data := None; Users.error := Some "offline" |} "A" Scenario.directory
     = ({| Users.users := []; Users.loading := false |},
        [Users.SetLoading true; Users.SelectReceivers "A"; Users.SelectSenders "A";
         Users.SetUsers []; Users.SetLoading false]).
Proof.
  destruct (recent_conversations_directory "A" Scenario.directory eq_refl)
    as (H1 & _ & _ & H4).
  split; [reflexivity|]. split; [apply H4|]. apply H1. reflexivity.
Defined.

(** X12. Through the search box only searches reach the directory. A
    blank query makes no request at all and leaves the directory as it
    is (the recent conversations are not fetched again); so does any
    query while no user is signed in. Any other query makes exactly one
    profile search, for the pattern "%query%" with the query as typed,
    excluding the local user and limited to 10 rows; afterwards loading
    is cleared, and the directory holds the rows found, or what it held
    before when the search failed. *)
Theorem search_box_only_searches resp sent received uid profile query st :
  let r := SearchBox.on_timer resp sent received uid profile query st in
  (Js.blank query = true -> r = (st, []))
  /\ (falsy uid = true -> r = (st, []))
  /\ (Js.blank query = false -> falsy uid = false ->
      r = Users.searchUsers resp uid query st
      /\ Users.loading r.1 = false
      /\ (exists rest,
            r.2 = [Users.SetLoading true;
                   Users.SearchProfiles ("%" +:+ query +:+ "%") (str uid) 10] ++ rest
            /\ forall e, e ∈ rest ->
                 e = Users.SetLoading false \/ exists rows, e = Users.SetUsers rows)
      /\ Users.users r.1
         = match Users.error resp, Users.data resp with
           | None, Some rows => rows
           | _, _ => Users.users st
           end).
Proof.
  intros r. subst r.
  unfold SearchBox.on_timer, Sidebar.debounced, ChatPage.handleSearch, Users.searchUsers.
  pose proof (truthy_trim query) as T.
  destruct (Js.truthy (Js.trim query)) eqn:Ht; cbn [snd]; rewrite ?Ht; cbn [negb orb].
  all: split; [|split].
  all: try (intros Hb; rewrite Hb in T; done).
  - intros ->. done.
  - intros _ ->. split; [done|].
    destruct (Users.error resp), (Users.data resp); cbn; split; try done.
    all: split; [|done]; eexists; split; [reflexivity|].
    all: intros e He; rewrite ?elem_of_cons, elem_of_nil in He.
    all: repeat (destruct He as [He|He]); try done; eauto.
  - done.
Qed.

Lemma search_box_only_searches_witness :
  let found := {| Users.data := Some [Scenario.carol]; Users.error := None |} in
  Js.blank "  " = true /\ Js.blank "car" = false /\ falsy (Some "u-A") = false
  /\ SearchBox.on_timer found (Some ["B"]) None (Some "u-A") (Some Scenario.alice) "  "
       Scenario.directory = (Scenario.directory, [])
  /\ (let r := SearchBox.on_timer found (Some ["B"]) None (Some "u-A")
                 (Some Scenario.alice) "car" Scenario.directory in
      Users.loading r.1 = false /\ Users.users r.1 = [Scenario.carol]
      /\ exists rest,
           r.2 = [Users.SetLoading true; Users.SearchProfiles "%car%" "u-A" 10] ++ rest).
Proof.
  cbv zeta. split; [reflexivity|]. split; [reflexivity|]. split; [reflexivity|].
  split.
  - apply (proj1 (search_box_only_searches
             {| Users.data := Some [Scenario.carol]; Users.error := None |}
             (Some ["B"]) None (Some "u-A") (Some Scenario.alice) "  " Scenario.directory)).
    reflexivity.
  - destruct (proj2 (proj2 (search_box_only_searches
             {| Users.data := Some [Scenario.carol]; Users.error := None |}
             (Some ["B"]) None (Some "u-A") (Some Scenario.alice) "car" Scenario.directory))
             eq_refl eq_refl) as (_ & H2 & (rest & H3 & _) & H4).
    split; [exact H2|]. split; [exact H4|]. by exists rest.
Defined.

(** ** Notifications *)




(** ** The message pane *)

Module WindowFacts.
Import Window.

Lemma typing_timers_elem h b : h ∈ typing_timers b <-> (h, TypingOff) ∈ armed b.
Proof.
  unfold typing_timers. rewrite list_elem_of_omap. split.
  - intros ([h' t] & Hin & E). cbn in E. destruct t; [|done]. by injection E as ->.
  - intros H. by exists (h, TypingOff).
Qed.

Lemma clearTimeout_elem h h' t b :
  (h', t) ∈ armed (clearTimeout h b) <-> (h', t) ∈ armed b /\ h' <> h.
Proof.
  unfold clearTimeout. cbn. rewrite !list_elem_of_In, filter_In. cbn.
  rewrite negb_true_iff, Nat.eqb_neq. done.
Qed.

Lemma clearTimeout_NoDup h b : NoDup (armed b).*1 -> NoDup (armed (clearTimeout h b)).*1.
Proof.
  unfold clearTimeout. cbn. induction (armed b) as [|[h' t] l IH]; cbn; [done|].
  intros [H1 H2]%NoDup_cons. destruct (negb (h' =? h)%nat); cbn; [|by apply IH].
  apply NoDup_cons. split; [|by apply IH].
  intros Hin. apply H1. apply list_elem_of_fmap in Hin as ([h'' t'] & -> & Hin).
  apply list_elem_of_fmap. exists (h'', t'). split; [done|].
  apply list_elem_of_In in Hin. apply filter_In in Hin as [Hin _].
  by apply list_elem_of_In.
Qed.

Lemma setTimeout_elem task h t b :
  (h, t) ∈ armed (setTimeout task b).2
  <-> (h, t) ∈ armed b \/ (h = next_handle b /\ t = task).
Proof.
  unfold setTimeout. cbn. rewrite elem_of_app, list_elem_of_singleton.
  split; intros [H|H]; auto.
  - right. by injection H.
  - right. destruct H as [-> ->]. done.
Qed.

Lemma setTimeout_NoDup task b :
  (forall h t, (h, t) ∈ armed b -> (0 < h < next_handle b)%nat) ->
  NoDup (armed b).*1 -> NoDup (armed (setTimeout task b).2).*1.
Proof.
  intros Hlt H. unfold setTimeout. cbn. rewrite fmap_app. cbn.
  apply NoDup_app. split; [done|]. split; [|apply NoDup_singleton].
  intros h Hin ->%list_elem_of_singleton.
  apply list_elem_of_fmap in Hin as ([h' t] & E & Hin). cbn in E. subst h'.
  apply Hlt in Hin. lia.
Qed.

Lemma last_typing_snoc calls b : last_typing (calls ++ [OnTyping b]) = Some b.
Proof. unfold last_typing. rewrite omap_app. cbn. apply last_snoc. Qed.

Lemma last_typing_snoc' calls m1 m2 b :
  last_typing (calls ++ m1 ++ m2 ++ [OnTyping b]) = Some b.
Proof. by rewrite !app_assoc, last_typing_snoc. Qed.

Lemma cleared_elem s b h t :
  (h, t) ∈ armed (pane_cleared s b) -> (h, t) ∈ armed b.
Proof.
  unfold pane_cleared. destruct (typingTimeoutRef s) as [h'|]; [|done].
  destruct (h' =? 0)%nat; [done|]. by intros [H _]%clearTimeout_elem.
Qed.

Lemma cleared_NoDup s b : NoDup (armed b).*1 -> NoDup (armed (pane_cleared s b)).*1.
Proof.
  unfold pane_cleared. destruct (typingTimeoutRef s) as [h'|]; [|done].
  destruct (h' =? 0)%nat; [done|]. apply clearTimeout_NoDup.
Qed.

Lemma cleared_next s b : next_handle (pane_cleared s b) = next_handle b.
Proof.
  unfold pane_cleared. destruct (typingTimeoutRef s) as [h'|]; [|done].
  by destruct (h' =? 0)%nat.
Qed.

Lemma cleared_no_typing s b calls :
  pane_consistent (s, b, calls) -> typing_timers (pane_cleared s b) = [].
Proof.
  intros (Hpos & Hlt & Hnd & Href & _).
  destruct (typing_timers (pane_cleared s b)) as [|h l] eqn:E; [done|]. exfalso.
  assert (h ∈ typing_timers (pane_cleared s b)) as Hin by (rewrite E; left).
  apply typing_timers_elem in Hin.
  pose proof (cleared_elem _ _ _ _ Hin) as Hb.
  pose proof (Href h (proj2 (typing_timers_elem h b) Hb)) as Hr.
  unfold pane_cleared in Hin. rewrite Hr in Hin.
  destruct (Nat.eqb_spec h 0) as [->|Hne].
  - apply Hlt in Hb. lia.
  - apply clearTimeout_elem in Hin as [_ Hin]. done.
Qed.

Lemma handle_determines_task {A B} (l : list (A * B)) x y1 y2 :
  NoDup l.*1 -> (x, y1) ∈ l -> (x, y2) ∈ l -> y1 = y2.
Proof.
  induction l as [|[a c] l IH]; cbn; [by intros _ ?%elem_of_nil|].
  intros [Ha Hl]%NoDup_cons H1 H2.
  apply elem_of_cons in H1 as [E1|H1]; apply elem_of_cons in H2 as [E2|H2].
  - congruence.
  - injection E1 as <- <-. exfalso. apply Ha, list_elem_of_fmap. by exists (x, y2).
  - injection E2 as <- <-. exfalso. apply Ha, list_elem_of_fmap. by exists (x, y1).
  - by apply IH.
Qed.

Lemma handleInputChange_consistent value s b calls :
  pane_consistent (s, b, calls) ->
  pane_consistent (step (Input value) (s, b, calls)).
Proof.
  intros Hinv. pose proof (cleared_no_typing s b calls Hinv) as Hclr.
  destruct Hinv as (Hpos & Hlt & Hnd & Href & Hlast).
  unfold step, handleInputChange. fold (pane_cleared s b).
  destruct (Js.truthy (Js.trim value)).
  - change (setTimeout TypingOff (pane_cleared s b))
      with (next_handle (pane_cleared s b), (setTimeout TypingOff (pane_cleared s b)).2).
    cbn [pane_consistent typingTimeoutRef]. split; [|split; [|split; [|split]]].
    + cbn. lia.
    + intros h t [H|[-> ->]]%setTimeout_elem.
      * apply cleared_elem, Hlt in H. cbn. rewrite cleared_next. lia.
      * cbn. rewrite cleared_next. lia.
    + apply setTimeout_NoDup; [|by apply cleared_NoDup].
      intros h t H. rewrite cleared_next. by apply cleared_elem, Hlt in H.
    + intros h [H|[-> _]]%typing_timers_elem%setTimeout_elem; [|done].
      apply typing_timers_elem in H. rewrite Hclr in H. by apply elem_of_nil in H.
    + intros _ E.
      assert (next_handle (pane_cleared s b) ∈ typing_timers (setTimeout TypingOff (pane_cleared s b)).2)
        as Hin by (apply typing_timers_elem, setTimeout_elem; by right).
      rewrite E in Hin. by apply elem_of_nil in Hin.
  - cbn [pane_consistent typingTimeoutRef]. split; [|split; [|split; [|split]]].
    + by rewrite cleared_next.
    + intros h t H. rewrite cleared_next. by apply cleared_elem, Hlt in H.
    + by apply cleared_NoDup.
    + intros h H. rewrite Hclr in H. by apply elem_of_nil in H.
    + by rewrite last_typing_snoc.
Qed.

Lemma handleSend_consistent s b calls :
  pane_consistent (s, b, calls) -> pane_consistent (step Send (s, b, calls)).
Proof.
  intros (Hpos & Hlt & Hnd & Href & Hlast).
  unfold step, handleSend.
  destruct (_ && _).
  - cbn [pane_consistent]. by rewrite app_nil_r.
  - unfold clearFile.
    change (setTimeout FocusInput b) with (next_handle b, (setTimeout FocusInput b).2).
    cbn [pane_consistent typingTimeoutRef]. split; [|split; [|split; [|split]]].
    + cbn. lia.
    + intros h t [H|[-> ->]]%setTimeout_elem; cbn.
      * apply Hlt in H. lia.
      * lia.
    + by apply setTimeout_NoDup.
    + intros h [H|[_ [=]]]%typing_timers_elem%setTimeout_elem.
      by apply Href, typing_timers_elem.
    + by rewrite last_typing_snoc'.
Qed.

Lemma fire_consistent h s b calls :
  pane_consistent (s, b, calls) -> pane_consistent (step (Fire h) (s, b, calls)).
Proof.
  intros (Hpos & Hlt & Hnd & Href & Hlast).
  unfold step, fire.
  destruct (List.find _ (armed b)) as [[h' task]|] eqn:E.
  - apply find_some in E as [Hin Eh]. cbn in Eh. apply Nat.eqb_eq in Eh. subst h'.
    apply list_elem_of_In in Hin.
    cbn [pane_consistent]. split; [|split; [|split; [|split]]].
    + done.
    + intros h' t [H _]%clearTimeout_elem. by apply Hlt in H.
    + by apply clearTimeout_NoDup.
    + intros h' [H _]%typing_timers_elem%clearTimeout_elem.
      by apply Href, typing_timers_elem.
    + destruct task.
      * by rewrite last_typing_snoc.
      * rewrite app_nil_r. intros Hl%Hlast.
        destruct (typing_timers b) as [|h' l] eqn:Et; [done|]. intros Ec.
        assert (h' ∈ typing_timers b) as Hh' by (rewrite Et; left).
        apply typing_timers_elem in Hh'.
        assert (h' <> h) as Hne.
        { intros ->. 
          assert (TypingOff = FocusInput); [|done].
          by eapply (handle_determines_task (armed b) h). }
        assert (h' ∈ typing_timers (clearTimeout h b)) as Hc
          by (apply typing_timers_elem, clearTimeout_elem; done).
        rewrite Ec in Hc. by apply elem_of_nil in Hc.
  - cbn [pane_consistent]. by rewrite app_nil_r.
Qed.

Lemma run_consistent events x : pane_consistent x -> pane_consistent (run events x).
Proof.
  unfold run. revert x. induction events as [|e es IH]; intros x H; cbn [foldl]; [done|].
  apply IH. destruct x as [[s b] calls]. destruct e.
  - by apply handleInputChange_consistent.
  - by apply handleSend_consistent.
  - by apply fire_consistent.
Qed.

Lemma mounted_consistent : pane_consistent mounted.
Proof.
  cbn. split; [lia|]. split; [by intros h t ?%elem_of_nil|].
  split; [apply NoDup_nil_2|]. split; [by intros h ?%elem_of_nil|done].
Qed.

End WindowFacts.

(** X14. Whatever the user types and sends and whichever timeouts fire,
    starting from a freshly mounted pane: at most one "typing off"
    timeout is pending, and it is the one the ref holds; and whenever the
    last typing flag announced to the peer is "typing", such a timeout is
    pending, so the announcement will be taken back. *)
Theorem typing_never_sticks events :
  let '(s, b, calls) := Window.run events Window.mounted in
  (Window.typing_timers b = []
   \/ exists h, Window.typing_timers b = [h] /\ Window.typingTimeoutRef s = Some h)
  /\ (Window.last_typing calls = Some true ->
      exists h, Window.typing_timers b = [h] /\ Window.typingTimeoutRef s = Some h).
Proof.
  pose proof (WindowFacts.run_consistent events _ WindowFacts.mounted_consistent) as H.
  destruct (Window.run events Window.mounted) as [[s b] calls].
  destruct H as (Hpos & Hlt & Hnd & Href & Hlast).
  assert (Window.typing_timers b = []
          \/ exists h, Window.typing_timers b = [h] /\ Window.typingTimeoutRef s = Some h)
    as Hone.
  { destruct (Window.typing_timers b) as [|h [|h' l]] eqn:E; [by left| |].
    - right. exists h. split; [done|]. apply Href. left.
    - exfalso.
      assert (h = h') as <-.
      { assert (Some h = Some h') as [= ->]; [|done].
        rewrite <- (Href h), <- (Href h'); [done| |].
        - right; left.
        - left. }
      assert (NoDup (Window.typing_timers b)) as Hnd'.
      { unfold Window.typing_timers. clear -Hnd.
        induction (Window.armed b) as [|[k t] l' IH]; cbn; [apply NoDup_nil_2|].
        cbn in Hnd. apply NoDup_cons in Hnd as [Hk Hl]. destruct t; cbn; [|by apply IH].
        apply NoDup_cons. split; [|by apply IH].
        intros Hin. apply Hk. apply list_elem_of_omap in Hin as ([k' t'] & Hin & Ek).
        cbn in Ek. destruct t'; [|done]. injection Ek as ->.
        apply list_elem_of_fmap. by exists (k, Window.TypingOff). }
      rewrite E in Hnd'. apply NoDup_cons in Hnd' as [Hh _]. apply Hh. left. }
  split; [done|]. intros Ht. destruct Hone as [E|?]; [|done]. by apply Hlast in Ht.
Qed.

Lemma typing_never_sticks_witness :
  let '(s, b, calls) := Window.run Scenario.session Window.mounted in
  Window.last_typing calls = Some false
  /\ Window.newMessage s = ""
  /\ (Window.typing_timers b = []
      \/ exists h, Window.typing_timers b = [h] /\ Window.typingTimeoutRef s = Some h)
  /\ (let '(s1, b1, calls1) := Window.run [Window.Input "h"; Window.Input "hi"]
                                  Window.mounted in
      Window.last_typing calls1 = Some true
      /\ exists h, Window.typing_timers b1 = [h] /\ Window.typingTimeoutRef s1 = Some h).
Proof.
  pose proof (typing_never_sticks Scenario.session) as H.
  pose proof (typing_never_sticks [Window.Input "h"; Window.Input "hi"]) as H1.
  destruct (Window.run Scenario.session Window.mounted) as [[s b] calls] eqn:E.
  destruct (Window.run [Window.Input "h"; Window.Input "hi"] Window.mounted)
    as [[s1 b1] calls1] eqn:E1.
  vm_compute in E. injection E as <- <- <-.
  vm_compute in E1. injection E1 as <- <- <-.
  split; [reflexivity|]. split; [reflexivity|]. split; [exact (proj1 H)|].
  split; [reflexivity|]. exact (proj2 H1 eq_refl).
Defined.

(** X15. The send button. With a blank draft and no file selected it
    does nothing. Otherwise it hands the draft, untrimmed, and the
    selected file to [sendMessage] in one call, then announces "not
    typing", and leaves the draft empty and the file selection cleared
    whatever becomes of the send; a preview it revokes is the one that
    was shown. For an active pair that call always gets past the blank
    check of [sendMessage]: with a file the upload is requested, without
    one the trimmed draft is handed to the store. *)
Theorem send_button_hands_over_the_draft s b :
  let '(s', b', calls) := Window.handleSend s b in
  (Js.blank (Window.newMessage s) = true -> Window.selectedFile s = None ->
     s' = s /\ b' = b /\ calls = [])
  /\ (Js.blank (Window.newMessage s) = false \/ is_Some (Window.selectedFile s) ->
      Window.newMessage s' = "" /\ Window.selectedFile s' = None
      /\ Window.previewUrl s' = None
      /\ exists arg revoked,
           calls = [Window.OnSendMessage arg] ++ revoked ++ [Window.OnTyping false]
           /\ arg_text arg = Window.newMessage s
           /\ arg_file arg = Window.selectedFile s
           /\ (forall u, Window.RevokeObjectURL u ∈ revoked -> Window.previewUrl s = Some u)
           /\ forall w cur sel st,
                falsy cur = false -> falsy sel = false ->
                match Window.selectedFile s with
                | Some f =>
                    StorageUpload "chat-attachments" (fileName_of w cur f) f
                      ∈ trace (sendMessage w cur sel arg st)
                | None =>
                    exists row, InsertMessage row ∈ trace (sendMessage w cur sel arg st)
                                /\ nm_text row = Js.trim (Window.newMessage s)
                end).
Proof.
  unfold Window.handleSend, Window.clearFile. rewrite truthy_trim.
  assert (forall (u : string) (p : option string),
            Window.RevokeObjectURL u
              ∈ match p with
                | Some v => if Js.truthy v then [Window.RevokeObjectURL v] else []
                | None => []
                end -> p = Some u) as Hrev.
  { intros u [v|]; [|by intros ?%elem_of_nil].
    destruct (Js.truthy v); [|by intros ?%elem_of_nil].
    by intros [= ->]%list_elem_of_singleton. }
  destruct (Js.blank (Window.newMessage s)) eqn:Hb,
           (Window.selectedFile s) as [f|] eqn:Hf; cbn -[sendMessage fileName_of].
  all: split; [first [done | by intros _ [=] | by intros [=]]|].
  2: { intros [?|[? ?]]; done. }
  all: intros _; repeat split.
  all: eexists _, _; split; [reflexivity|].
  all: cbn [arg_text arg_file default from_option]; unfold id; rewrite ?or_empty;
    repeat split.
  all: try (intros u; apply Hrev).
  all: intros w cur sel st Hc Hs; hook_unfold; rewrite Hc, Hs;
    cbn [orb arg_text arg_file default from_option]; unfold id;
    rewrite ?or_empty, truthy_trim, Hb.
  - destruct (upload_error w), (insert_error w); hook_run; pick_effect.
  - destruct (upload_error w), (insert_error w); hook_run; pick_effect.
  - destruct (insert_error w); hook_run.
    all: eexists; split; [pick_effect|]; cbn; apply or_empty.
Qed.

Lemma send_button_hands_over_the_draft_witness :
  let '(s', b', calls) := Window.handleSend Scenario.draft Scenario.browser in
  Js.blank (Window.newMessage Scenario.draft) = false
  /\ Window.newMessage s' = ""
  /\ calls = [Window.OnSendMessage (ArgText " hi "); Window.OnTyping false]
  /\ Window.handleSend s' b' = (s', b', []).
Proof.
  pose proof (send_button_hands_over_the_draft Scenario.draft Scenario.browser) as H.
  destruct (Window.handleSend Scenario.draft Scenario.browser) as [[s' b'] calls] eqn:E.
  destruct H as [_ H]. destruct (H (or_introl eq_refl)) as (H1 & _).
  vm_compute in E. injection E as <- <- <-.
  split; [reflexivity|]. split; [exact H1|]. split; reflexivity.
Defined.

(** ** Accounts *)

Lemma lower_char_idem c : Auth.lower_char (Auth.lower_char c) = Auth.lower_char c.
Proof.
  destruct c as [[] [] [] [] [] [] [] []]; vm_compute; reflexivity.
Qed.

Lemma toLowerCase_idem s : Auth.toLowerCase (Auth.toLowerCase s) = Auth.toLowerCase s.
Proof. induction s as [|c s IH]; cbn; [done|]. by rewrite lower_char_idem, IH. Qed.

(** X16. Usernames are case-insensitive. Two spellings of a username
    that differ only in capitals are the same account: sign-up and
    sign-in derive the same address from them. The username sign-up
    stores in the profile is the lower-cased one, lower-casing it again
    changes nothing, and signing in with the stored name reaches the
    same address. *)
Theorem sign_in_ignores_capitals answer answer' profileError username username' password :
  Auth.toLowerCase username = Auth.toLowerCase username' ->
  (exists rest rest',
     (Auth.signUp answer profileError username password).2
       = Auth.AuthSignUp (Auth.email_of username) password :: rest
     /\ (Auth.signIn answer' username' password).2
        = Auth.AuthSignIn (Auth.email_of username) password :: rest')
  /\ (forall uid stored,
        Auth.InsertProfile uid stored true
          ∈ (Auth.signUp answer profileError username password).2 ->
        Auth.user answer = Some uid
        /\ stored = Auth.toLowerCase username
        /\ Auth.toLowerCase stored = stored
        /\ Auth.email_of stored = Auth.email_of username').
Proof.
  intros E. split.
  - unfold Auth.signUp, Auth.signIn, Auth.email_of. rewrite <- E.
    destruct (Auth.error answer), (Auth.user answer), profileError as [pe|],
      (Auth.error answer') as [e'|], (Auth.user answer');
      try destruct (bool_decide (Auth.code pe = Some "23505"));
      try destruct (Auth.includes (Auth.message e') "Invalid login credentials");
      eexists _, _; split; reflexivity.
  - intros uid stored. unfold Auth.signUp.
    destruct (Auth.error answer), (Auth.user answer) as [u|], profileError as [pe|];
      try destruct (bool_decide (Auth.code pe = Some "23505")); cbn.
    all: intros H; rewrite ?elem_of_cons, elem_of_nil in H.
    all: repeat (destruct H as [H|H]; try discriminate H); try done.
    all: injection H as -> ->; split; [done|]; split; [done|].
    all: split; [apply toLowerCase_idem|].
    all: unfold Auth.email_of; by rewrite toLowerCase_idem, E.
Qed.

Lemma sign_in_ignores_capitals_witness :
  Auth.toLowerCase "Alice" = Auth.toLowerCase "ALICE"
  /\ exists rest rest',
       (Auth.signUp {| Auth.user := Some "u-A"; Auth.error := None |} None
          "Alice" "secret1").2
       = Auth.AuthSignUp (Auth.email_of "Alice") "secret1" :: rest
       /\ (Auth.signIn {| Auth.user := Some "u-A"; Auth.error := None |}
             "ALICE" "secret1").2
          = Auth.AuthSignIn (Auth.email_of "Alice") "secret1" :: rest'.
Proof.
  split; [reflexivity|].
  apply (sign_in_ignores_capitals
           {| Auth.user := Some "u-A"; Auth.error := None |}
           {| Auth.user := Some "u-A"; Auth.error := None |} None "Alice" "ALICE").
  reflexivity.
Defined.
